(** * Med-AL-SSL: the label-budget round of the training harness

    A shallow embedding of [utils.py] and [data/cifar10_dataset.py]:
    index arrays are lists of integers, boolean masks are lists of
    booleans updated in place, fallible framework calls return [option]
    or a sum with the exception raised, and the random generator is an
    explicit stream of draws threaded through the calls that consume it. *)

From Stdlib Require Import ZArith Floats Uint63 Ascii String.
From stdpp Require Import base option list.

Local Open Scope Z_scope.

(** ** Array indexing as the framework does it *)

Module Indexing.

(** An integer index into an array of [n] elements: a negative index
    counts from the end, anything outside [-n, n) raises IndexError. *)
Definition norm_index (n : nat) (p : Z) : option nat :=
  if bool_decide (0 <= p < Z.of_nat n) then Some (Z.to_nat p)
  else if bool_decide (- Z.of_nat n <= p < 0) then Some (Z.to_nat (p + Z.of_nat n))
  else None.

(** [a[p]] for an integer [p]. *)
Definition getitem {A} (a : list A) (p : Z) : option A :=
  i ← norm_index (length a) p; a !! i.

(** [a[p] = x] for an integer [p]. *)
Definition setitem {A} (a : list A) (p : Z) (x : A) : option (list A) :=
  i ← norm_index (length a) p; Some (<[i:=x]> a).

(** [a[ps] = x] for an integer index array [ps]: every position named is
    overwritten, in order. *)
Fixpoint setitems {A} (a : list A) (ps : list Z) (x : A) : option (list A) :=
  match ps with
  | [] => Some a
  | p :: ps' => a' ← setitem a p x; setitems a' ps' x
  end.

(** [a[mask]] for a boolean mask of the array's length: the elements
    under a [true], in the array's order. *)
Fixpoint bool_index {A} (a : list A) (mask : list bool) : list A :=
  match a, mask with
  | x :: a', b :: mask' =>
      if b then x :: bool_index a' mask' else bool_index a' mask'
  | _, _ => []
  end.

(** The elements of [a] whose position satisfies [keep], in the array's
    order; [k] is the position of the head. *)
Fixpoint select_from {A} (keep : nat → bool) (k : nat) (a : list A) : list A :=
  match a with
  | [] => []
  | x :: a' =>
      if keep k then x :: select_from keep (S k) a' else select_from keep (S k) a'
  end.

Definition at_positions {A} (ps : list Z) (a : list A) : list A :=
  select_from (λ i, bool_decide (Z.of_nat i ∈ ps)) 0 a.

Definition off_positions {A} (ps : list Z) (a : list A) : list A :=
  select_from (λ i, negb (bool_decide (Z.of_nat i ∈ ps))) 0 a.

End Indexing.

Import Indexing.

(** ** [postprocess_indices] *)

(** [unlabeled_mask = torch.ones(len(unlabeled_indices)); unlabeled_mask[samples_indices] = 0]
    then the labeled array grows by the masked-out elements and the
    unlabeled array keeps the others. *)
Definition postprocess_indices (labeled_indices unlabeled_indices samples_indices : list Z)
  : option (list Z * list Z) :=
  let unlabeled_mask := replicate (length unlabeled_indices) true in
  unlabeled_mask ← setitems unlabeled_mask samples_indices false;
  let labeled_indices :=
    labeled_indices ++ bool_index unlabeled_indices (negb <$> unlabeled_mask) in
  let unlabeled_indices := bool_index unlabeled_indices unlabeled_mask in
  Some (labeled_indices, unlabeled_indices).

(** Nonnegative in-range positions, the ones a sampler hands out. *)
Definition valid_positions {A} (a : list A) (ps : list Z) : Prop :=
  Forall (λ p, 0 <= p < Z.of_nat (length a)) ps.

Section indexing_facts.
Context {A : Type}.
Implicit Types (a : list A) (mask : list bool) (ps : list Z).

Lemma norm_index_valid n p :
  0 <= p < Z.of_nat n → norm_index n p = Some (Z.to_nat p).
Proof. intros H. unfold norm_index. by rewrite bool_decide_eq_true_2. Qed.

Lemma norm_index_lt n p i : norm_index n p = Some i → (i < n)%nat.
Proof.
  unfold norm_index. repeat case_bool_decide; intros [= <-]; lia.
Qed.

Lemma setitems_length {B} (l : list B) ps x l' :
  setitems l ps x = Some l' → length l' = length l.
Proof.
  revert l. induction ps as [|p ps IH]; simpl; intros l H.
  - by injection H as <-.
  - unfold setitem in H. destruct (norm_index (length l) p) as [i|]; [|done].
    simpl in H. apply IH in H. by rewrite length_insert in H.
Qed.

(** Clearing valid positions succeeds, and a cell of the result is
    [false] exactly where it was named or already [false]. *)
Lemma setitems_valid mask ps :
  Forall (λ p, 0 <= p < Z.of_nat (length mask)) ps →
  ∃ mask', setitems mask ps false = Some mask' ∧
    length mask' = length mask ∧
    ∀ i, (i < length mask)%nat →
      mask' !! i = if bool_decide (Z.of_nat i ∈ ps) then Some false else mask !! i.
Proof.
  revert mask. induction ps as [|p ps IH]; intros mask Hv.
  - exists mask. split; [done|]. split; [done|]. intros i _.
    rewrite bool_decide_eq_false_2; [done|]. by intros ?%elem_of_nil.
  - apply Forall_cons in Hv as [Hp Hv].
    destruct (IH (<[Z.to_nat p:=false]> mask)) as (mask' & Hs & Hl & Hm).
    { by rewrite length_insert. }
    exists mask'. simpl. unfold setitem. rewrite norm_index_valid by done.
    simpl. split; [done|]. rewrite length_insert in Hl, Hm. split; [done|].
    intros i Hi. rewrite (Hm i Hi).
    destruct (decide (Z.of_nat i ∈ ps)) as [Hin|Hin].
    + rewrite !bool_decide_eq_true_2; [done| |done]. by right.
    + rewrite (bool_decide_eq_false_2 _ Hin).
      destruct (decide (i = Z.to_nat p)) as [->|Hne].
      * rewrite list_lookup_insert_eq by lia.
        rewrite bool_decide_eq_true_2; [done|]. rewrite Z2Nat.id by lia. by left.
      * rewrite list_lookup_insert_ne by done.
        rewrite bool_decide_eq_false_2; [done|].
        intros [Heq|?]%elem_of_cons; [lia|done].
Qed.

Lemma bool_index_select a : ∀ mask k (keep : nat → bool),
  length mask = length a →
  (∀ i, (i < length a)%nat → mask !! i = Some (keep (k + i)%nat)) →
  bool_index a mask = select_from keep k a.
Proof.
  induction a as [|x a IH]; intros mask k keep Hl Hm; [by destruct mask|].
  destruct mask as [|b mask]; [done|]. simpl in *.
  assert (b = keep k) as ->.
  { specialize (Hm 0%nat ltac:(lia)). rewrite Nat.add_0_r in Hm. by injection Hm. }
  rewrite (IH mask (S k) keep); [done|lia|].
  intros i Hi. specialize (Hm (S i) ltac:(lia)). simpl in Hm.
  by replace (S k + i)%nat with (k + S i)%nat by lia.
Qed.

Lemma select_from_ext (f g : nat → bool) a : ∀ k,
  (∀ i, (k <= i < k + length a)%nat → f i = g i) →
  select_from f k a = select_from g k a.
Proof.
  induction a as [|x a IH]; intros k H; [done|]. simpl in *.
  rewrite (H k) by lia. rewrite (IH (S k)); [done|]. intros i Hi. apply H. lia.
Qed.

Lemma select_from_length_split (f : nat → bool) a : ∀ k,
  (length (select_from f k a) + length (select_from (λ i, negb (f i)) k a)
   = length a)%nat.
Proof.
  induction a as [|x a IH]; intros k; [done|]. simpl.
  specialize (IH (S k)). destruct (f k); simpl; lia.
Qed.

Lemma select_from_perm_split (f : nat → bool) a : ∀ k,
  select_from f k a ++ select_from (λ i, negb (f i)) k a ≡ₚ a.
Proof.
  induction a as [|x a IH]; intros k; [done|]. simpl.
  destruct (f k); simpl.
  - by rewrite IH.
  - by rewrite <- Permutation_middle, IH.
Qed.

Lemma select_from_elem (f : nat → bool) a x : ∀ k,
  x ∈ select_from f k a ↔ ∃ i, a !! i = Some x ∧ f (k + i)%nat = true.
Proof.
  induction a as [|y a IH]; intros k; simpl.
  - split; [by intros ?%elem_of_nil|]. by intros (i & ? & _).
  - split.
    + intros H. destruct (f k) eqn:Hk.
      * apply elem_of_cons in H as [->|H].
        { exists 0%nat. by rewrite Nat.add_0_r. }
        apply IH in H as (i & ? & ?). exists (S i).
        by replace (k + S i)%nat with (S k + i)%nat by lia.
      * apply IH in H as (i & ? & ?). exists (S i).
        by replace (k + S i)%nat with (S k + i)%nat by lia.
    + intros (i & Hi & Hf). destruct i as [|i]; simpl in Hi.
      * injection Hi as ->. rewrite Nat.add_0_r in Hf. rewrite Hf. by left.
      * replace (k + S i)%nat with (S k + i)%nat in Hf by lia.
        assert (x ∈ select_from f (S k) a) by (apply IH; eauto).
        destruct (f k); [by right|done].
Qed.

(** Picking one more position [p] adds exactly the element at [p]. *)
Lemma select_from_add (f : nat → bool) (p : nat) a x : ∀ k,
  (k <= p)%nat → a !! (p - k)%nat = Some x → f p = false →
  select_from (λ i, bool_decide (i = p) || f i) k a ≡ₚ x :: select_from f k a.
Proof.
  induction a as [|y a IH]; intros k Hk Hx Hf; [done|]. simpl.
  destruct (decide (k = p)) as [->|Hne].
  - rewrite Nat.sub_diag in Hx. injection Hx as ->.
    rewrite bool_decide_eq_true_2 by done. rewrite Hf. simpl.
    apply Permutation_cons; [done|].
    rewrite (select_from_ext _ f); [done|]. intros i Hi.
    rewrite bool_decide_eq_false_2 by lia. done.
  - rewrite bool_decide_eq_false_2 by done. simpl.
    assert (a !! (p - S k)%nat = Some x) as Hx'.
    { replace (p - k)%nat with (S (p - S k)) in Hx by lia. done. }
    specialize (IH (S k) ltac:(lia) Hx' Hf).
    destruct (f k); [|done]. rewrite IH. apply Permutation_swap.
Qed.

End indexing_facts.


(** [a[ps]] for an integer index array: the elements at the positions
    named, in the order they are named. *)
Definition getitems {A} (a : list A) (ps : list Z) : option (list A) :=
  mapM (getitem a) ps.

Section postprocess_facts.
Context {A : Type}.
Implicit Types (a : list A) (ps : list Z).

Lemma getitem_valid a p :
  0 <= p < Z.of_nat (length a) → ∃ x, getitem a p = Some x ∧ a !! Z.to_nat p = Some x.
Proof.
  intros Hp. unfold getitem. rewrite norm_index_valid by done. simpl.
  destruct (lookup_lt_is_Some_2 a (Z.to_nat p)) as [x Hx]; [lia|]. eauto.
Qed.

Lemma at_positions_cons a p ps x :
  0 <= p → p ∉ ps → a !! Z.to_nat p = Some x →
  at_positions (p :: ps) a ≡ₚ x :: at_positions ps a.
Proof.
  intros Hp Hnin Hx. unfold at_positions.
  rewrite (select_from_ext _
    (λ i, bool_decide (i = Z.to_nat p) || bool_decide (Z.of_nat i ∈ ps))).
  - apply select_from_add; [lia|by rewrite Nat.sub_0_r|].
    rewrite bool_decide_eq_false_2; [done|]. by rewrite Z2Nat.id.
  - intros i _. destruct (decide (i = Z.to_nat p)) as [->|Hne].
    + rewrite (bool_decide_eq_true_2 (_ = _)) by done. simpl.
      apply bool_decide_eq_true_2. rewrite Z2Nat.id by done. by left.
    + rewrite (bool_decide_eq_false_2 (_ = _)) by done. simpl.
      apply bool_decide_ext. rewrite elem_of_cons. split; [|by right].
      intros [?|?]; [lia|done].
Qed.

(** The elements selected by a duplicate-free array of valid positions are
    the elements at those positions, each once. *)
Lemma at_positions_getitems a ps :
  NoDup ps → valid_positions a ps →
  ∃ xs, getitems a ps = Some xs ∧ at_positions ps a ≡ₚ xs ∧ length xs = length ps.
Proof.
  unfold getitems, valid_positions. induction 1 as [|p ps Hnin Hnd IH]; intros Hv.
  - exists []. split; [done|]. split; [|done].
    unfold at_positions.
    assert (∀ k, select_from (λ i, bool_decide (Z.of_nat i ∈ @nil Z)) k a = []) as H.
    { clear Hv. induction a as [|y a IHa]; intros k; [done|]. cbn [select_from].
      case_bool_decide as E; [by apply elem_of_nil in E|apply IHa]. }
    by rewrite H.
  - apply Forall_cons in Hv as [Hp Hv]. destruct (IH Hv) as (xs & Hxs & Hperm & Hlen).
    destruct (getitem_valid a p Hp) as (x & Hg & Hx).
    exists (x :: xs). simpl. rewrite Hg. simpl. rewrite Hxs. simpl.
    split; [done|]. split; [|by rewrite Hlen].
    rewrite at_positions_cons by (done || lia). by rewrite Hperm.
Qed.

End postprocess_facts.

(** What [postprocess_indices] computes on valid positions: the mask built
    in place selects exactly the positions named. *)
Lemma postprocess_indices_valid (L U S : list Z) :
  valid_positions U S →
  postprocess_indices L U S = Some (L ++ at_positions S U, off_positions S U).
Proof.
  intros Hv. unfold postprocess_indices.
  destruct (setitems_valid (replicate (length U) true) S) as (mask & -> & Hl & Hm).
  { by rewrite length_replicate. }
  rewrite length_replicate in Hl, Hm. simpl. f_equal. f_equal.
  - f_equal. unfold at_positions. apply bool_index_select.
    + by rewrite length_fmap.
    + intros i Hi. rewrite list_lookup_fmap, (Hm i Hi). simpl.
      case_bool_decide; [done|]. by rewrite lookup_replicate_2.
  - unfold off_positions. apply bool_index_select; [done|].
    intros i Hi. rewrite (Hm i Hi). simpl.
    case_bool_decide; [done|]. by rewrite lookup_replicate_2.
Qed.

(** C1. For pairwise-distinct valid positions [S] into [U],
    [postprocess_indices L U S] returns [(L', U')] where [L'] is [L]
    followed by exactly the elements of [U] at the positions in [S], and
    [U'] is [U] without those positions, in its order; so
    [len L' + len U' = len L + len U] and [len L' = len L + len S]. *)
Theorem postprocess_indices_spec (L U S : list Z) :
  NoDup S → valid_positions U S →
  ∃ L' U' picked,
    postprocess_indices L U S = Some (L', U') ∧
    getitems U S = Some picked ∧
    L' = L ++ at_positions S U ∧ at_positions S U ≡ₚ picked ∧
    U' = off_positions S U ∧
    (length L' + length U' = length L + length U)%nat ∧
    length L' = (length L + length S)%nat.
Proof.
  intros Hnd Hv.
  destruct (at_positions_getitems U S Hnd Hv) as (picked & Hg & Hperm & Hlen).
  exists (L ++ at_positions S U), (off_positions S U), picked.
  split; [by apply postprocess_indices_valid|].
  repeat split; try done.
  - rewrite length_app. unfold at_positions, off_positions.
    pose proof (select_from_length_split
                  (λ i, bool_decide (Z.of_nat i ∈ S)) U 0). lia.
  - by rewrite length_app, Hperm, Hlen.
Qed.

Lemma postprocess_indices_spec_witness :
  ∃ L' U' picked,
    postprocess_indices [10; 11] [20; 21; 22; 23] [2; 0] = Some (L', U') ∧
    getitems [20; 21; 22; 23] [2; 0] = Some picked ∧
    L' = [10; 11] ++ at_positions [2; 0] [20; 21; 22; 23] ∧
    at_positions [2; 0] [20; 21; 22; 23] ≡ₚ picked ∧
    U' = off_positions [2; 0] [20; 21; 22; 23] ∧
    (length L' + length U' = length [10; 11] + length [20; 21; 22; 23])%nat ∧
    length L' = (length [10; 11] + length [2; 0])%nat.
Proof.
  apply (postprocess_indices_spec [10; 11] [20; 21; 22; 23] [2; 0]).
  - compute_done.
  - unfold valid_positions. repeat constructor; simpl; lia.
Defined.

Example postprocess_indices_run :
  postprocess_indices [10; 11] [20; 21; 22; 23] [2; 0] = Some ([10; 11; 20; 22], [21; 23]).
Proof. reflexivity. Qed.

(** ** Exceptions *)

(** The exceptions the harness can let through: all builtin or raised by
    the numerical framework. *)
Inductive exn :=
  | IndexError
  | ValueError
  | ZeroDivisionError
  | OverflowError
  | NotImplementedError
  | FrameworkError (msg : string).

Definition result (A : Type) : Type := exn + A.

Definition raise {A} (e : exn) : result A := inl e.

Global Instance result_ret : MRet result := λ A x, inr x.
Global Instance result_bind : MBind result := λ A B f m,
  match m with inl e => inl e | inr x => f x end.
Global Instance result_fmap : FMap result := λ A B f m,
  match m with inl e => inl e | inr x => inr (f x) end.

(** An index that the array rejects raises IndexError. *)
Definition index_checked {A} (o : option A) : result A :=
  match o with Some x => inr x | None => raise IndexError end.

(** ** Numbers of the framework *)

Module Num.

(** [float(n)] for a length or a count (below 2^63). *)
Definition float_of_nat (n : nat) : float :=
  PrimFloat.of_uint63 (Uint63.of_Z (Z.of_nat n)).

(** The double nearest to an integer: what the arithmetic of a float with
    an integer converts the integer to. *)
Definition int_to_double (n : Z) : float :=
  if bool_decide (0 <= n < 2 ^ 63) then PrimFloat.of_uint63 (Uint63.of_Z n)
  else SF2Prim (binary_normalize prec emax n 0 false).

(** That conversion raises OverflowError when the integer is too large for
    a double. *)
Definition float_of_int (n : Z) : result float :=
  if bool_decide (0 <= n < 2 ^ 63) then mret (int_to_double n)
  else match binary_normalize prec emax n 0 false with
       | S754_infinity _ => raise OverflowError
       | _ => mret (int_to_double n)
       end.

(** [int(x)]: truncation towards zero; ValueError on nan, OverflowError
    on an infinity. *)
Definition int_of_float (x : float) : result Z :=
  match Prim2SF x with
  | S754_zero _ => mret 0
  | S754_finite s m e =>
      let v := if bool_decide (0 <= e) then Z.pos m * 2 ^ e else Z.pos m / 2 ^ (- e) in
      mret (if s then - v else v)
  | S754_infinity _ => raise OverflowError
  | S754_nan => raise ValueError
  end.

(** [ceil(x)]: ValueError on nan, OverflowError on an infinity. *)
Definition ceil_of_float (x : float) : result Z :=
  match Prim2SF x with
  | S754_zero _ => mret 0
  | S754_finite s m e =>
      if bool_decide (0 <= e) then
        let v := Z.pos m * 2 ^ e in mret (if s then - v else v)
      else
        let d := 2 ^ (- e) in
        mret (if s then - (Z.pos m / d) else (Z.pos m + d - 1) / d)
  | S754_infinity _ => raise OverflowError
  | S754_nan => raise ValueError
  end.

End Num.

(** ** The random generator *)

Module Rng.

(** [default_rng()] is modelled by its entropy: the stream of raw draws it
    will produce. Nothing is assumed about the stream. *)
Definition Generator := nat → nat.

(** Drawing [n] elements of [pool] without replacement: each draw picks one
    of the elements left. *)
Fixpoint draw_all {A} (rng : Generator) (n : nat) (pool : list A) : list A :=
  match n with
  | O => []
  | S n' =>
      let j := (rng n' `mod` length pool)%nat in
      match pool !! j with
      | Some x => x :: draw_all rng n' (delete j pool)
      | None => []
      end
  end.

(** [rng.permutation(a)]. *)
Definition permutation {A} (rng : Generator) (a : list A) : list A :=
  draw_all rng (length a) a.

(** [rng.choice(n, size=number, replace=False)]: [size] distinct elements of
    [arange(n)]; a negative size, or one larger than the population, is a
    ValueError; [size=None] draws one element of a non-empty population. *)
Definition choice (rng : Generator) (n : nat) (size : option Z) : result (list Z) :=
  match size with
  | None =>
      if bool_decide (n = 0%nat) then raise ValueError
      else mret (take 1 (permutation rng (seqZ 0 (Z.of_nat n))))
  | Some k =>
      if bool_decide (k < 0) then raise ValueError
      else if bool_decide (Z.of_nat n < k) then raise ValueError
      else mret (take (Z.to_nat k) (permutation rng (seqZ 0 (Z.of_nat n))))
  end.

End Rng.

(** ** The data of a round *)

Record Args := {
  arch : string;
  layers : Z;
  widen_factor : Z;
  drop_rate : float;
  checkpoint_path : string;
  name : string;
  resume : string;
  start_epoch : Z;
  weak_supervision_strategy : string;
  add_labeled_ratio : float;
  batch_size : Z;
}.

(** A [WeaklySupervisedDataset]: the targets of the whole base dataset,
    indexed by dataset index ([targets[unlabeled_indices]] in [get_loss]),
    and the indices it currently serves. *)
Record Dataset := {
  targets : list Z;
  indices : list Z;
}.

(** The keyword arguments a caller hands on to every loader, as a Python
    dict of plain values; the harness never reads them. *)
Inductive PyValue :=
  | PyNone
  | PyBool (b : bool)
  | PyInt (n : Z)
  | PyStr (s : string).

Definition Kwargs := list (string * PyValue).

Record DataLoader := {
  loader_dataset : Dataset;
  loader_batch_size : Z;
  loader_shuffle : bool;
  loader_kwargs : Kwargs;
}.

(** The dataset class ([Cifar10Dataset]): what a round reads of it. *)
Record DatasetClass := {
  labeled_ratio : float;
  dataset_add_labeled_ratio : float;
  num_classes : Z;
  input_size : Z;
  add_labeled_num : option Z;
  remove_classes : list Z;
}.

Section loaders.

(** What [DataLoader] makes of the keyword arguments: it raises on those
    it refuses, before it looks at the dataset. *)
Variable accepts_kwargs : Kwargs → result unit.

(** [DataLoader(dataset=dataset, batch_size=batch_size, shuffle=True,
    **kwargs)]; the length of a dataset is the number of indices it
    serves. The random sampler refuses an empty dataset and the batch
    sampler a batch size that is not positive, both with ValueError. *)
Definition data_loader (dataset : Dataset) (batch_size : Z) (kwargs : Kwargs)
  : result DataLoader :=
  _ ← accepts_kwargs kwargs;
  if bool_decide (indices dataset = []) then raise ValueError
  else if bool_decide (batch_size <= 0) then raise ValueError
  else mret {| loader_dataset := dataset; loader_batch_size := batch_size;
               loader_shuffle := true; loader_kwargs := kwargs |}.

(** [create_loaders]: the two datasets are pointed at the new index arrays
    and wrapped in loaders. *)
Definition create_loaders (args : Args)
    (labeled_dataset unlabeled_dataset test_dataset : Dataset)
    (labeled_indices unlabeled_indices : list Z) (kwargs : Kwargs)
  : result (DataLoader * DataLoader * DataLoader * Dataset * Dataset) :=
  let labeled_dataset :=
    {| targets := targets labeled_dataset; indices := labeled_indices |} in
  let unlabeled_dataset :=
    {| targets := targets unlabeled_dataset; indices := unlabeled_indices |} in
  labeled_loader ← data_loader labeled_dataset (batch_size args) kwargs;
  unlabeled_loader ← data_loader unlabeled_dataset (batch_size args) kwargs;
  val_loader ← data_loader test_dataset (batch_size args) kwargs;
  mret (labeled_loader, unlabeled_loader, val_loader,
        labeled_dataset, unlabeled_dataset).

End loaders.

(** The conditions under which the three loaders of a round can be built. *)
Definition loaders_ok (accepts_kwargs : Kwargs → result unit) (args : Args)
    (test_dataset : Dataset) (labeled_indices unlabeled_indices : list Z)
    (kwargs : Kwargs) : Prop :=
  accepts_kwargs kwargs = inr () ∧ labeled_indices ≠ [] ∧ unlabeled_indices ≠ [] ∧
  indices test_dataset ≠ [] ∧ 0 < batch_size args.

Lemma data_loader_inr accepts_kwargs d b kw l :
  data_loader accepts_kwargs d b kw = inr l ↔
  accepts_kwargs kw = inr () ∧ indices d ≠ [] ∧ 0 < b ∧
  l = {| loader_dataset := d; loader_batch_size := b; loader_shuffle := true;
         loader_kwargs := kw |}.
Proof.
  unfold data_loader. destruct (accepts_kwargs kw) as [e|[]]; cbn.
  - split; [done|]. by intros [? _].
  - repeat case_bool_decide; cbn; split; try done.
    + by intros (_ & ? & _).
    + intros (_ & _ & ? & _). lia.
    + intros [= <-]. repeat split; [done|lia].
    + by intros (_ & _ & _ & ->).
Qed.

Lemma create_loaders_inr accepts_kwargs args ld ud td L U kw x :
  create_loaders accepts_kwargs args ld ud td L U kw = inr x ↔
  loaders_ok accepts_kwargs args td L U kw ∧
  x = (let mk d := {| loader_dataset := d; loader_batch_size := batch_size args;
                      loader_shuffle := true; loader_kwargs := kw |} in
       (mk {| targets := targets ld; indices := L |},
        mk {| targets := targets ud; indices := U |}, mk td,
        {| targets := targets ld; indices := L |},
        {| targets := targets ud; indices := U |})).
Proof.
  unfold create_loaders, loaders_ok. cbn.
  destruct (data_loader accepts_kwargs {| targets := targets ld; indices := L |} _ _)
    as [e|l1] eqn:H1; cbn.
  { split; [done|]. intros [(Ha & HL & _ & _ & Hb) _].
    assert (Hex : ∃ l, data_loader accepts_kwargs
                         {| targets := targets ld; indices := L |} (batch_size args) kw
                       = inr l) by (eexists; by apply data_loader_inr).
    destruct Hex as [l Hl]. congruence. }
  destruct (data_loader accepts_kwargs {| targets := targets ud; indices := U |} _ _)
    as [e|l2] eqn:H2; cbn.
  { split; [done|]. intros [(Ha & _ & HU & _ & Hb) _].
    assert (Hex : ∃ l, data_loader accepts_kwargs
                         {| targets := targets ud; indices := U |} (batch_size args) kw
                       = inr l) by (eexists; by apply data_loader_inr).
    destruct Hex as [l Hl]. congruence. }
  destruct (data_loader accepts_kwargs td _ _) as [e|l3] eqn:H3; cbn.
  { split; [done|]. intros [(Ha & _ & _ & Ht & Hb) _].
    assert (Hex : ∃ l, data_loader accepts_kwargs td (batch_size args) kw = inr l)
      by (eexists; by apply data_loader_inr).
    destruct Hex as [l Hl]. congruence. }
  apply data_loader_inr in H1 as (Ha & HL & Hb & ->).
  apply data_loader_inr in H2 as (_ & HU & _ & ->).
  apply data_loader_inr in H3 as (_ & Ht & _ & ->). cbn in *.
  split; [intros [= <-]; by repeat split|]. by intros [_ ->].
Qed.

(** [stratified_random_sampling]. *)
Definition stratified_random_sampling (rng : Rng.Generator)
    (unlabeled_indices : list Z) (number : option Z) : result (list Z) :=
  Rng.choice rng (length unlabeled_indices) number.

(** ** [perform_sampling] *)

(** What a round prints. *)
Inductive Printed :=
  | UncertaintySampling (ratio : float)
  | PseudoLabeling (ratio : float) (accuracy : float)
  | RandomSampling (ratio : float).

(** What a round returns, with the two datasets it has mutated. *)
Record Round := {
  round_train_loader : DataLoader;
  round_unlabeled_loader : DataLoader;
  round_val_loader : DataLoader;
  round_labeled_indices : list Z;
  round_unlabeled_indices : list Z;
  round_labeled_dataset : Dataset;
  round_unlabeled_dataset : Dataset;
  round_printed : Printed;
}.

(** The loop over [enumerate(samples_indices)] of the semi-supervised
    branch: [i] is the loop counter, [acc] is [pseudo_labels_acc]. *)
Fixpoint pseudo_label_loop (tgts : list Z) (acc : list Z) (i : nat)
    (js samples_targets : list Z) : result (list Z * list Z) :=
  match js with
  | [] => mret (tgts, acc)
  | j :: js' =>
      t ← index_checked (getitem tgts j);
      p ← index_checked (getitem samples_targets (Z.of_nat i));
      if bool_decide (t = p) then
        acc' ← index_checked (setitem acc (Z.of_nat i) 1);
        pseudo_label_loop tgts acc' (S i) js' samples_targets
      else
        tgts' ← index_checked (setitem tgts j p);
        pseudo_label_loop tgts' acc (S i) js' samples_targets
  end.

(** [np.sum(pseudo_labels_acc == 1)]. *)
Definition count_ones (acc : list Z) : nat :=
  length (filter (λ a, a = 1) acc).

Section perform_sampling.

(** The model being trained and the two pluggable strategies are the
    caller's: [uncertainty_sampler.get_samples] and
    [pseudo_labeler.get_samples]. *)
Context {Model : Type}.
Variable uncertainty_get_samples :
  Z → Args → Model → DataLoader → DataLoader → option Z → result (list Z).
Variable pseudo_get_samples :
  Z → Args → Model → DataLoader → option Z → result (list Z * list Z).
Variable accepts_kwargs : Kwargs → result unit.

Definition perform_sampling (rng : Rng.Generator) (args : Args) (epoch : Z)
    (model : Model) (train_loader unlabeled_loader : DataLoader)
    (dataset_class : DatasetClass) (labeled_indices unlabeled_indices : list Z)
    (labeled_dataset unlabeled_dataset test_dataset : Dataset) (kwargs : Kwargs)
    (current_labeled_ratio : float) (best_model : Model) : result Round :=
  let ratio := PrimFloat.add current_labeled_ratio (add_labeled_ratio args) in
  let finish labeled_dataset labeled_indices unlabeled_indices printed :=
    '(train_loader, unlabeled_loader, val_loader, labeled_dataset, unlabeled_dataset) ←
      create_loaders accepts_kwargs args labeled_dataset unlabeled_dataset
                     test_dataset labeled_indices unlabeled_indices kwargs;
    mret {| round_train_loader := train_loader;
            round_unlabeled_loader := unlabeled_loader;
            round_val_loader := val_loader;
            round_labeled_indices := labeled_indices;
            round_unlabeled_indices := unlabeled_indices;
            round_labeled_dataset := labeled_dataset;
            round_unlabeled_dataset := unlabeled_dataset;
            round_printed := printed |} in
  if String.eqb (weak_supervision_strategy args) "active_learning" then
    samples_indices ← uncertainty_get_samples epoch args model train_loader
                        unlabeled_loader (add_labeled_num dataset_class);
    '(labeled_indices, unlabeled_indices) ←
      index_checked (postprocess_indices labeled_indices unlabeled_indices samples_indices);
    finish labeled_dataset labeled_indices unlabeled_indices
      (UncertaintySampling ratio)
  else if String.eqb (weak_supervision_strategy args) "semi_supervised" then
    '(samples_indices, samples_targets) ←
      pseudo_get_samples epoch args best_model unlabeled_loader
        (add_labeled_num dataset_class);
    '(labeled_indices, unlabeled_indices) ←
      index_checked (postprocess_indices labeled_indices unlabeled_indices samples_indices);
    let pseudo_labels_acc := replicate (length samples_indices) 0 in
    '(tgts, pseudo_labels_acc) ←
      pseudo_label_loop (targets labeled_dataset) pseudo_labels_acc 0
        samples_indices samples_targets;
    let labeled_dataset := {| targets := tgts; indices := indices labeled_dataset |} in
    let accuracy :=
      PrimFloat.div (Num.float_of_nat (count_ones pseudo_labels_acc))
                    (Num.float_of_nat (length samples_indices)) in
    finish labeled_dataset labeled_indices unlabeled_indices
      (PseudoLabeling ratio accuracy)
  else
    samples_indices ← stratified_random_sampling rng unlabeled_indices
                        (add_labeled_num dataset_class);
    '(labeled_indices, unlabeled_indices) ←
      index_checked (postprocess_indices labeled_indices unlabeled_indices samples_indices);
    finish labeled_dataset labeled_indices unlabeled_indices
      (RandomSampling ratio).

(** The positions the strategy of this round hands to [postprocess_indices]. *)
Definition sampled_positions (rng : Rng.Generator) (args : Args) (epoch : Z)
    (model : Model) (train_loader unlabeled_loader : DataLoader)
    (dataset_class : DatasetClass) (unlabeled_indices : list Z)
    (best_model : Model) : result (list Z) :=
  if String.eqb (weak_supervision_strategy args) "active_learning" then
    uncertainty_get_samples epoch args model train_loader unlabeled_loader
      (add_labeled_num dataset_class)
  else if String.eqb (weak_supervision_strategy args) "semi_supervised" then
    fst <$> pseudo_get_samples epoch args best_model unlabeled_loader
              (add_labeled_num dataset_class)
  else
    stratified_random_sampling rng unlabeled_indices (add_labeled_num dataset_class).

End perform_sampling.

(** ** The pool of indices across a round *)

Definition disjoint_indices (l k : list Z) : Prop := ∀ x, x ∈ l → x ∉ k.

Lemma off_positions_select {A} (S : list Z) (U : list A) :
  off_positions S U = select_from (λ i, negb (bool_decide (Z.of_nat i ∈ S))) 0 U.
Proof. reflexivity. Qed.

Lemma at_positions_subset {A} (S : list Z) (U : list A) x :
  x ∈ at_positions S U → x ∈ U.
Proof.
  unfold at_positions. rewrite select_from_elem. intros (i & Hi & _).
  by eapply list_elem_of_lookup_2.
Qed.

Lemma off_positions_subset {A} (S : list Z) (U : list A) x :
  x ∈ off_positions S U → x ∈ U.
Proof.
  unfold off_positions. rewrite select_from_elem. intros (i & Hi & _).
  by eapply list_elem_of_lookup_2.
Qed.

Lemma positions_split_perm {A} (S : list Z) (U : list A) :
  at_positions S U ++ off_positions S U ≡ₚ U.
Proof. apply select_from_perm_split. Qed.

(** Moving the selected positions from [U] to [L] keeps the pool. *)
Lemma pool_preserved (L U S : list Z) :
  (∀ x, x ∈ at_positions S U → x ∈ U) ∧
  (NoDup U → disjoint_indices L U →
   disjoint_indices (L ++ at_positions S U) (off_positions S U)) ∧
  (L ++ at_positions S U) ++ off_positions S U ≡ₚ L ++ U.
Proof.
  split; [apply at_positions_subset|]. split.
  - intros Hnd Hdis x [Hx|Hx]%elem_of_app Hoff.
    + apply (Hdis x Hx). by eapply off_positions_subset.
    + rewrite <- (positions_split_perm S U) in Hnd.
      apply NoDup_app in Hnd as (_ & Hsep & _). by apply (Hsep x).
  - by rewrite <- (assoc_L (++)), positions_split_perm.
Qed.

Section pool.
Context {Model : Type}.
Variable uncertainty_get_samples :
  Z → Args → Model → DataLoader → DataLoader → option Z → result (list Z).
Variable pseudo_get_samples :
  Z → Args → Model → DataLoader → option Z → result (list Z * list Z).

Variable accepts_kwargs : Kwargs → result unit.

Local Abbreviation perform :=
  (perform_sampling uncertainty_get_samples pseudo_get_samples accepts_kwargs).
Local Abbreviation sampled :=
  (sampled_positions uncertainty_get_samples pseudo_get_samples).

(** The index arrays a round returns, whatever the branch: the result of
    [postprocess_indices] on the positions the strategy returned; and the
    loaders could be built on them. *)
Lemma perform_sampling_indices
    rng args epoch model tl ul dc L U ld ud td kwargs ratio best S r :
  sampled rng args epoch model tl ul dc U best = inr S →
  valid_positions U S →
  perform rng args epoch model tl ul dc L U ld ud td kwargs ratio best = inr r →
  round_labeled_indices r = L ++ at_positions S U ∧
  round_unlabeled_indices r = off_positions S U ∧
  loaders_ok accepts_kwargs args td (L ++ at_positions S U) (off_positions S U) kwargs.
Proof.
  unfold sampled_positions, perform_sampling. intros Hs Hv.
  destruct (String.eqb _ "active_learning").
  - rewrite Hs. cbn. rewrite (postprocess_indices_valid L U S Hv). cbn.
    destruct (create_loaders _ _ _ _ _ _ _ _) as [e|x] eqn:Hx; [done|].
    apply create_loaders_inr in Hx as [Hok ->]. cbn. by intros [= <-].
  - destruct (String.eqb _ "semi_supervised").
    + destruct (pseudo_get_samples _ _ _ _ _) as [e|[S' T]]; [done|].
      cbn in Hs. injection Hs as ->. cbn.
      rewrite (postprocess_indices_valid L U S Hv). cbn.
      destruct (pseudo_label_loop _ _ _ _ _) as [e|[tgts acc]]; [done|]. cbn.
      destruct (create_loaders _ _ _ _ _ _ _ _) as [e|x] eqn:Hx; [done|].
      apply create_loaders_inr in Hx as [Hok ->]. cbn. by intros [= <-].
    + rewrite Hs. cbn. rewrite (postprocess_indices_valid L U S Hv). cbn.
      destruct (create_loaders _ _ _ _ _ _ _ _) as [e|x] eqn:Hx; [done|].
      apply create_loaders_inr in Hx as [Hok ->]. cbn. by intros [= <-].
Qed.

(** Outside the semi-supervised branch the round returns as soon as the
    strategy has returned valid positions and the loaders can be built on
    the new index arrays. *)
Lemma perform_sampling_returns
    rng args epoch model tl ul dc L U ld ud td kwargs ratio best S :
  weak_supervision_strategy args ≠ "semi_supervised"%string →
  sampled rng args epoch model tl ul dc U best = inr S →
  valid_positions U S →
  loaders_ok accepts_kwargs args td (L ++ at_positions S U) (off_positions S U) kwargs →
  ∃ r, perform rng args epoch model tl ul dc L U ld ud td kwargs ratio best = inr r.
Proof.
  unfold sampled_positions, perform_sampling. intros Hne Hs Hv Hok.
  pose proof (proj2 (create_loaders_inr accepts_kwargs args ld ud td
    (L ++ at_positions S U) (off_positions S U) kwargs _) (conj Hok eq_refl)) as Hx.
  destruct (String.eqb _ "active_learning").
  - rewrite Hs. cbn. rewrite (postprocess_indices_valid L U S Hv). cbn.
    rewrite Hx. cbn. eauto.
  - destruct (String.eqb_spec (weak_supervision_strategy args) "semi_supervised");
      [done|].
    rewrite Hs. cbn. rewrite (postprocess_indices_valid L U S Hv). cbn.
    rewrite Hx. cbn. eauto.
Qed.

(** A round raises when the loaders cannot be built on the new index
    arrays: no branch returns then. *)
Lemma perform_sampling_needs_loaders
    rng args epoch model tl ul dc L U ld ud td kwargs ratio best S :
  sampled rng args epoch model tl ul dc U best = inr S →
  valid_positions U S →
  ¬ loaders_ok accepts_kwargs args td (L ++ at_positions S U) (off_positions S U) kwargs →
  ∃ e, perform rng args epoch model tl ul dc L U ld ud td kwargs ratio best = inl e.
Proof.
  intros Hs Hv Hno.
  destruct (perform rng args epoch model tl ul dc L U ld ud td kwargs ratio best)
    as [e|r] eqn:Hr; [by eexists|].
  destruct (perform_sampling_indices _ _ _ _ _ _ _ _ _ _ _ _ _ _ _ _ _ Hs Hv Hr)
    as (_ & _ & Hok). done.
Qed.

End pool.

(** ** Concrete rounds *)

Module Sample.

Definition args (strategy : string) : Args :=
  {| arch := "resnet"; layers := 28; widen_factor := 2; drop_rate := 0.5%float;
     checkpoint_path := "runs"; name := "cifar10@resnet"; resume := "";
     start_epoch := 0; weak_supervision_strategy := strategy;
     add_labeled_ratio := 0.25%float; batch_size := 2 |}.

Definition dataset (tgts idx : list Z) : Dataset :=
  {| targets := tgts; indices := idx |}.

(** Keyword arguments that the loaders accept. *)
Definition kwargs : Kwargs := [("num_workers"%string, PyInt 2); ("pin_memory"%string, PyBool true)].

Definition accepts_kwargs : Kwargs → result unit := λ _, inr ().

Definition loader (d : Dataset) : DataLoader :=
  {| loader_dataset := d; loader_batch_size := 2; loader_shuffle := true;
     loader_kwargs := kwargs |}.

(** A test dataset of two samples. *)
Definition test_dataset : Dataset := dataset [9; 9] [0; 1].

Definition dataset_class (number : Z) : DatasetClass :=
  {| labeled_ratio := 0.5%float; dataset_add_labeled_ratio := 0.25%float;
     num_classes := 10; input_size := 32; add_labeled_num := Some number;
     remove_classes := [0; 1; 2] |}.

(** A generator whose every draw is 0, and strategies that return what
    they are given. *)
Definition rng : Rng.Generator := λ _, 0%nat.

Definition uncertainty (S : list Z)
  : Z → Args → unit → DataLoader → DataLoader → option Z → result (list Z) :=
  λ _ _ _ _ _ _, inr S.

Definition pseudo (S T : list Z)
  : Z → Args → unit → DataLoader → option Z → result (list Z * list Z) :=
  λ _ _ _ _ _, inr (S, T).

(** One round over a base dataset whose targets are [tgts]. *)
Definition round (strategy : string) (S T : list Z) (number : Z)
    (tgts L U : list Z) : result Round :=
  perform_sampling (uncertainty S) (pseudo S T) accepts_kwargs rng (args strategy) 0 tt
    (loader (dataset tgts L)) (loader (dataset tgts U)) (dataset_class number)
    L U (dataset tgts L) (dataset tgts U) test_dataset kwargs 0.25%float tt.

Definition positions (strategy : string) (S T : list Z) (number : Z)
    (tgts L U : list Z) : result (list Z) :=
  sampled_positions (uncertainty S) (pseudo S T) rng (args strategy) 0 tt
    (loader (dataset tgts L)) (loader (dataset tgts U)) (dataset_class number)
    U tt.

End Sample.

(** ** The semi-supervised branch: where the pseudo labels land *)

Lemma getitem_nat {A} (a : list A) (i : nat) :
  (i < length a)%nat → getitem a (Z.of_nat i) = a !! i.
Proof.
  intros Hi. unfold getitem. rewrite norm_index_valid by lia. simpl.
  by rewrite Nat2Z.id.
Qed.

(** The loop writes [samples_targets[i]] into [targets] at the integer
    [samples_indices[i]] itself, and nowhere else. *)
Lemma pseudo_label_loop_spec (js : list Z) : ∀ (tgts acc : list Z) (i : nat) (T : list Z),
  NoDup js → valid_positions tgts js →
  (i + length js <= length T)%nat → (i + length js <= length acc)%nat →
  ∃ tgts' acc', pseudo_label_loop tgts acc i js T = inr (tgts', acc') ∧
    length tgts' = length tgts ∧
    (∀ k j, js !! k = Some j → tgts' !! Z.to_nat j = T !! (i + k)%nat) ∧
    (∀ q, Z.of_nat q ∉ js → tgts' !! q = tgts !! q).
Proof.
  induction js as [|j js IH]; intros tgts acc i T Hnd Hv HT Hacc.
  - exists tgts, acc. by repeat split.
  - apply NoDup_cons in Hnd as [Hj Hnd]. apply Forall_cons in Hv as [Hjv Hv].
    simpl in HT, Hacc. cbn [pseudo_label_loop].
    destruct (getitem_valid tgts j Hjv) as (t & -> & Ht).
    rewrite getitem_nat by lia.
    destruct (lookup_lt_is_Some_2 T i ltac:(lia)) as [p Hp]. rewrite Hp. cbn.
    case_bool_decide as Htp.
    + unfold setitem. rewrite norm_index_valid by lia. cbn.
      destruct (IH tgts (<[Z.to_nat (Z.of_nat i):=1]> acc) (S i) T Hnd Hv)
        as (tgts' & acc' & -> & Hl & Hw & Ho); [lia|rewrite length_insert; lia|].
      exists tgts', acc'. repeat split; try done.
      * intros [|k] j'; simpl; intros Hk.
        -- injection Hk as <-. rewrite Nat.add_0_r, Hp, <- Htp, <- Ht.
           apply Ho. by rewrite Z2Nat.id by lia.
        -- rewrite (Hw k j' Hk). f_equal. lia.
      * intros q Hq. apply Ho. intros ?. apply Hq. by right.
    + unfold setitem. rewrite norm_index_valid by lia. cbn.
      destruct (IH (<[Z.to_nat j:=p]> tgts) acc (S i) T Hnd)
        as (tgts' & acc' & -> & Hl & Hw & Ho); [|lia|lia|].
      { unfold valid_positions in *. by rewrite length_insert. }
      rewrite length_insert in Hl.
      exists tgts', acc'. repeat split; try done.
      * intros [|k] j'; simpl; intros Hk.
        -- injection Hk as <-. rewrite Nat.add_0_r, Hp.
           rewrite Ho by (by rewrite Z2Nat.id by lia).
           apply list_lookup_insert_eq. lia.
        -- rewrite (Hw k j' Hk). f_equal. lia.
      * intros q Hq. rewrite Ho by (intros ?; apply Hq; by right).
        apply list_lookup_insert_ne. intros <-. apply Hq.
        rewrite Z2Nat.id by lia. by left.
Qed.

(** C2, the code at a round that selects the unlabeled sample at position
    1. The sample moved to the labeled list is dataset index 6
    ([unlabeled_indices[1]]); the predicted label 9 is written at dataset
    index 1, which was not selected, and the target of sample 6 is left as
    it was. *)
Theorem perform_sampling_pseudo_label_misplaced :
  ∃ r, Sample.round "semi_supervised" [1] [9] 1 [0; 1; 2; 3; 4; 5; 6; 7] [0] [5; 6; 7]
         = inr r ∧
    round_labeled_indices r = [0; 6] ∧
    round_unlabeled_indices r = [5; 7] ∧
    targets (round_labeled_dataset r) = [0; 9; 2; 3; 4; 5; 6; 7] ∧
    getitem (targets (round_labeled_dataset r)) 6 = Some 6 ∧
    getitem (targets (round_labeled_dataset r)) 1 = Some 9.
Proof. eexists. split; [reflexivity|]. by repeat split. Qed.

(** ** [NTXent] *)

Module NTXent.

(** A matrix is a list of rows; [m[p, q]] for nonnegative [p], [q]. *)
Definition entry {A} (m : list (list A)) (p q : nat) : option A :=
  row ← m !! p; row !! q.

(** [m[p, q] = v] for nonnegative [p], [q]: IndexError out of range. *)
Definition setentry {A} (m : list (list A)) (p q : nat) (v : A)
  : option (list (list A)) :=
  row ← m !! p;
  if bool_decide (q < length row)%nat then Some (<[p:=<[q:=v]> row]> m) else None.

(** [torch.ones((n, n), dtype=bool)]. *)
Definition ones (n : nat) : list (list bool) := replicate n (replicate n true).

(** [m.fill_diagonal_(v)]. *)
Definition fill_diagonal {A} (m : list (list A)) (v : A) : list (list A) :=
  imap (λ p row, <[p:=v]> row) m.

(** The body of [for i in range(batch_size)], over the values of [i] left. *)
Fixpoint clear_pairs (batch_size : nat) (range : list nat) (mask : list (list bool))
  : option (list (list bool)) :=
  match range with
  | [] => Some mask
  | i :: range' =>
      mask ← setentry mask i (batch_size + i) false;
      mask ← setentry mask (batch_size + i) i false;
      clear_pairs batch_size range' mask
  end.

Definition mask_correlated_samples (batch_size : nat) : result (list (list bool)) :=
  let mask := ones (batch_size * 2) in
  let mask := fill_diagonal mask false in
  index_checked (clear_pairs batch_size (seq 0 batch_size) mask).


(** [torch.diag(m, k)] and [torch.diag(m, -k)] of a square matrix, [k >= 0]. *)
Definition diag_above {A} (m : list (list A)) (k : nat) : list A :=
  omap (λ i, entry m i (i + k)) (seq 0 (length m - k)).

Definition diag_below {A} (m : list (list A)) (k : nat) : list A :=
  omap (λ i, entry m (i + k) i) (seq 0 (length m - k)).

(** [rows] consecutive rows of width [w] cut from a flat tensor. *)
Fixpoint chunks {A} (w rows : nat) (flat : list A) : list (list A) :=
  match rows with
  | O => []
  | S rows' => take w flat :: chunks w rows' (drop w flat)
  end.

(** [flat.reshape(rows, -1)]: the width is inferred as the number of
    elements divided by [rows]; the framework refuses [rows = 0] (the
    inferred dimension is ambiguous or the shape invalid) and a count that
    [rows] does not divide. A tensor of 0 elements reshapes to [rows] empty
    rows. *)
Definition reshape_rows {A} (rows : nat) (flat : list A) : result (list (list A)) :=
  if bool_decide (rows = 0)%nat then
    raise (FrameworkError "cannot infer the unspecified dimension")
  else if bool_decide (length flat `mod` rows ≠ 0)%nat then
    raise (FrameworkError "shape is invalid for input size")
  else mret (chunks (length flat / rows) rows flat).

(** [flat.reshape(rows, 1)]. *)
Definition reshape_column {A} (rows : nat) (flat : list A) : result (list (list A)) :=
  if bool_decide (length flat = rows) then mret ((λ x, [x]) <$> flat)
  else raise (FrameworkError "shape is invalid for input size").

(** [sim[mask]] for a boolean mask of the shape of [sim]: the entries under
    a [true], row after row. *)
Definition masked_select {A} (sim : list (list A)) (mask : list (list bool))
  : result (list A) :=
  if bool_decide (length <$> sim = length <$> mask) then
    mret (concat (zip_with bool_index sim mask))
  else raise IndexError.

(** [torch.cat((a, b), dim=1)]. *)
Definition cat_columns {A} (a b : list (list A)) : result (list (list A)) :=
  if bool_decide (length a = length b) then mret (zip_with app a b)
  else raise (FrameworkError "sizes of tensors must match except in dimension 1").

Section forward.

(** The cosine similarity of two embeddings and the summed cross entropy
    are the framework's. *)
Variable cosine_similarity : list float → list float → float.
Variable criterion : list (list float) → list Z → float.

(** The logits of [forward], from the similarity matrix on. *)
Definition logits_of_sim {A} (batch_size : nat) (mask : list (list bool))
    (sim : list (list A)) : result (list (list A)) :=
  let sim_i_j := diag_above sim batch_size in
  let sim_j_i := diag_below sim batch_size in
  positive_samples ← reshape_column (batch_size * 2) (sim_i_j ++ sim_j_i);
  selected ← masked_select sim mask;
  negative_samples ← reshape_rows (batch_size * 2) selected;
  cat_columns positive_samples negative_samples.

Definition forward (batch_size : nat) (temperature : float)
    (mask : list (list bool)) (z_i z_j : list (list float)) : result float :=
  let p1 := z_i ++ z_j in
  let sim :=
    (λ u, (λ v, PrimFloat.div (cosine_similarity u v) temperature) <$> p1) <$> p1 in
  logits ← logits_of_sim batch_size mask sim;
  let labels := replicate (batch_size * 2) 0 in
  let loss := criterion logits labels in
  mret (PrimFloat.div loss (Num.float_of_nat (2 * batch_size))).

End forward.



End NTXent.

Example mask_correlated_samples_2 :
  NTXent.mask_correlated_samples 2 =
  inr [[false; true; false; true]; [true; false; true; false];
       [false; true; false; true]; [true; false; true; false]].
Proof. reflexivity. Qed.

Example logits_of_sim_2 :
  NTXent.logits_of_sim 2
    [[false; true; false; true]; [true; false; true; false];
     [false; true; false; true]; [true; false; true; false]]
    [[0; 1; 2; 3]; [10; 11; 12; 13]; [20; 21; 22; 23]; [30; 31; 32; 33]]
  = inr [[2; 1; 3]; [13; 10; 12]; [20; 21; 23]; [31; 30; 32]].
Proof. reflexivity. Qed.

Module NTXentFacts.
Import NTXent.

(** An [n]-by-[n] matrix. *)
Definition square {A} (n : nat) (m : list (list A)) : Prop :=
  length m = n ∧ Forall (λ row, length row = n) m.

Lemma square_row {A} n (m : list (list A)) p :
  square n m → (p < n)%nat → ∃ row, m !! p = Some row ∧ length row = n.
Proof.
  intros [Hl Hr] Hp. destruct (lookup_lt_is_Some_2 m p) as [row Hrow]; [lia|].
  exists row. split; [done|]. by eapply (proj1 (Forall_lookup _ _) Hr).
Qed.








(** *** Counting the [true] entries of a row *)








(** *** The logits of [forward] *)



Lemma omap_total {A B} (f : A → option B) (l : list A) :
  Forall (λ x, is_Some (f x)) l → Forall2 (λ x y, f x = Some y) l (omap f l).
Proof.
  induction 1 as [|x l [y Hy] _ IH]; [constructor|]. simpl. rewrite Hy.
  by constructor.
Qed.

Lemma entry_square {A} n (m : list (list A)) p q :
  square n m → (p < n)%nat → (q < n)%nat → is_Some (entry m p q).
Proof.
  intros Hsq Hp Hq. destruct (square_row n m p Hsq Hp) as (row & Hrow & Hlen).
  unfold entry. rewrite Hrow. cbn. apply lookup_lt_is_Some_2. lia.
Qed.







End NTXentFacts.

Section forward_facts.
Import NTXent NTXentFacts.
Variable cosine_similarity : list float → list float → float.
Variable criterion : list (list float) → list Z → float.


End forward_facts.



(** At [batch_size = 1] there is no negative: the logits are the two
    positives alone. *)
Example logits_of_sim_1 :
  NTXent.mask_correlated_samples 1 = inr [[false; false]; [false; false]] ∧
  NTXent.logits_of_sim 1 [[false; false]; [false; false]] [[0; 1]; [10; 11]]
    = inr [[1]; [10]].
Proof. split; reflexivity. Qed.

(** ** [AverageMeter] *)

Module AverageMeter.

(** The four fields; the metric values are doubles and the count an
    integer. *)
Record t := { val : float; avg : float; sum : float; count : Z }.

(** [__init__]. *)
Definition init : t := {| val := 0; avg := 0; sum := 0; count := 0 |}.

(** [reset]. *)
Definition reset (self : t) : t := {| val := 0; avg := 0; sum := 0; count := 0 |}.

(** [update(val, n)]: the product and the quotient convert the integer
    operand to a double; the division raises when the count is zero. *)
Definition update (self : t) (v : float) (n : Z) : result t :=
  n' ← Num.float_of_int n;
  let sum' := PrimFloat.add (sum self) (PrimFloat.mul v n') in
  let count' := count self + n in
  c ← Num.float_of_int count';
  if bool_decide (count' = 0) then raise ZeroDivisionError
  else mret {| val := v; sum := sum'; count := count';
               avg := PrimFloat.div sum' c |}.

(** A sequence of [update(v, n)] calls, first call first. *)
Fixpoint updates (self : t) (calls : list (float * Z)) : result t :=
  match calls with
  | [] => mret self
  | (v, n) :: calls' => self ← update self v n; updates self calls'
  end.

(** The sums the fields are meant to hold: the count exactly, the sum of
    the [v * n] in double arithmetic, first call first. *)
Definition total_count (calls : list (float * Z)) : Z :=
  foldr (λ c acc, c.2 + acc) 0 calls.

Definition total_sum_from (s : float) (calls : list (float * Z)) : float :=
  fold_left (λ s c, PrimFloat.add s (PrimFloat.mul c.1 (Num.int_to_double c.2)))
            calls s.

Definition total_sum (calls : list (float * Z)) : float := total_sum_from 0 calls.

Definition last_val (calls : list (float * Z)) (d : float) : float :=
  List.last (fst <$> calls) d.

End AverageMeter.

Lemma last_cons_default {A} (l : list A) (x d d' : A) :
  List.last (x :: l) d = List.last (x :: l) d'.
Proof.
  revert x. induction l as [|y l IH]; intros x; [done|].
  change (List.last (y :: l) d = List.last (y :: l) d'). apply IH.
Qed.

Lemma float_of_int_small (n : Z) :
  0 <= n < 2 ^ 63 → Num.float_of_int n = inr (Num.int_to_double n).
Proof. intros Hn. unfold Num.float_of_int. by rewrite bool_decide_eq_true_2. Qed.

Lemma float_of_int_inr (n : Z) (x : float) :
  Num.float_of_int n = inr x → x = Num.int_to_double n.
Proof.
  unfold Num.float_of_int. case_bool_decide; [by intros [= <-]|].
  destruct (binary_normalize _ _ _ _ _); try done; by intros [= <-].
Qed.

Lemma float_of_int_raises (n : Z) (e : exn) :
  Num.float_of_int n = inl e → e = OverflowError.
Proof.
  unfold Num.float_of_int. case_bool_decide; [done|].
  destruct (binary_normalize _ _ _ _ _); try done. by intros [= <-].
Qed.

Lemma total_count_nonneg (calls : list (float * Z)) :
  Forall (λ c, 1 <= c.2) calls → 0 <= AverageMeter.total_count calls.
Proof.
  unfold AverageMeter.total_count.
  induction 1 as [|c calls Hc _ IH]; cbn; lia.
Qed.

(** The fields after a sequence of calls that returns. *)
Lemma updates_fields (calls : list (float * Z)) : ∀ self m,
  Forall (λ c, 1 <= c.2) calls → 0 <= AverageMeter.count self →
  AverageMeter.updates self calls = inr m →
  AverageMeter.count m = AverageMeter.count self + AverageMeter.total_count calls ∧
  AverageMeter.sum m = AverageMeter.total_sum_from (AverageMeter.sum self) calls ∧
  AverageMeter.val m = AverageMeter.last_val calls (AverageMeter.val self) ∧
  (calls ≠ [] →
   0 < AverageMeter.count m ∧
   AverageMeter.avg m
   = PrimFloat.div (AverageMeter.sum m) (Num.int_to_double (AverageMeter.count m))).
Proof.
  induction calls as [|[v n] calls IH]; intros self m Hn Hc.
  - intros [= <-]. unfold AverageMeter.total_count. cbn.
    split; [lia|]. by repeat split.
  - apply Forall_cons in Hn as [Hn1 Hn]. cbn in Hn1.
    pose proof (total_count_nonneg calls Hn) as Hpos.
    cbn [AverageMeter.updates]. unfold AverageMeter.update.
    destruct (Num.float_of_int n) as [e1|n'] eqn:E1; [done|].
    apply float_of_int_inr in E1 as ->. cbn.
    destruct (Num.float_of_int (AverageMeter.count self + n)) as [e2|c] eqn:E2; [done|].
    apply float_of_int_inr in E2 as ->. cbn.
    rewrite bool_decide_eq_false_2 by lia. cbn.
    set (self' := {| AverageMeter.val := v |}). intros Hm.
    destruct (IH self' m Hn) as (Hcount & Hsum & Hval & Havg); [simpl; lia|done|].
    unfold AverageMeter.total_count in *. subst self'. simpl in *.
    split; [lia|]. split; [exact Hsum|]. split.
    + rewrite Hval. unfold AverageMeter.last_val.
      destruct calls as [|c calls]; [done|]. csimpl. apply last_cons_default.
    + intros _. destruct calls as [|c calls]; [|by apply Havg].
      simpl in Hm. injection Hm as <-. simpl. split; [lia|done].
Qed.

(** The calls return when the counts stay below 2^63. *)
Lemma updates_return (calls : list (float * Z)) : ∀ self,
  Forall (λ c, 1 <= c.2) calls → 0 <= AverageMeter.count self →
  AverageMeter.count self + AverageMeter.total_count calls < 2 ^ 63 →
  ∃ m, AverageMeter.updates self calls = inr m.
Proof.
  induction calls as [|[v n] calls IH]; intros self Hn Hc Hb; [by eexists|].
  apply Forall_cons in Hn as [Hn1 Hn]. cbn in Hn1.
  pose proof (total_count_nonneg calls Hn) as Hpos.
  unfold AverageMeter.total_count in Hb, Hpos. cbn in Hb.
  cbn [AverageMeter.updates]. unfold AverageMeter.update.
  rewrite (float_of_int_small n) by lia. cbn.
  rewrite (float_of_int_small (AverageMeter.count self + n)) by lia. cbn.
  rewrite bool_decide_eq_false_2 by lia. cbn.
  apply IH; [done|simpl; lia|unfold AverageMeter.total_count; simpl; lia].
Qed.

Lemma updates_raise (calls : list (float * Z)) : ∀ self e,
  Forall (λ c, 1 <= c.2) calls → 0 <= AverageMeter.count self →
  AverageMeter.updates self calls = inl e → e = OverflowError.
Proof.
  induction calls as [|[v n] calls IH]; intros self e Hn Hc; [done|].
  apply Forall_cons in Hn as [Hn1 Hn]. cbn in Hn1.
  cbn [AverageMeter.updates]. unfold AverageMeter.update.
  destruct (Num.float_of_int n) as [e1|n'] eqn:E1; cbn.
  { intros [= <-]. by eapply float_of_int_raises. }
  destruct (Num.float_of_int (AverageMeter.count self + n)) as [e2|c] eqn:E2; cbn.
  { intros [= <-]. by eapply float_of_int_raises. }
  rewrite bool_decide_eq_false_2 by lia. cbn.
  apply IH; [done|]. simpl. lia.
Qed.

(** C10. [reset] and [__init__] set the four fields to 0. After [reset]
    (or construction) and any sequence of [update(v_i, n_i)] calls with
    every [n_i >= 1], in the double arithmetic of the code: once the calls
    have returned, [count] is the sum of the [n_i], [sum] is the sum of the
    [v_i * n_i] accumulated call by call, [val] is the last [v_i], and
    (when a call was made) [avg = sum / count]. The calls return when the
    [n_i] add up to less than 2^63, and whatever the [n_i] the only
    exception a call can raise is the OverflowError of an integer too
    large for a double. *)
Theorem average_meter_invariant (self : AverageMeter.t) (calls : list (float * Z)) :
  Forall (λ c, 1 <= c.2) calls →
  AverageMeter.reset self = AverageMeter.init ∧
  AverageMeter.init =
    {| AverageMeter.val := 0; AverageMeter.avg := 0;
       AverageMeter.sum := 0; AverageMeter.count := 0 |} ∧
  (∀ m, AverageMeter.updates (AverageMeter.reset self) calls = inr m →
     AverageMeter.count m = AverageMeter.total_count calls ∧
     AverageMeter.sum m = AverageMeter.total_sum calls ∧
     AverageMeter.val m = AverageMeter.last_val calls 0%float ∧
     (calls ≠ [] →
      AverageMeter.avg m
      = PrimFloat.div (AverageMeter.sum m)
                      (Num.int_to_double (AverageMeter.count m)) ∧
      0 < AverageMeter.count m) ∧
     (calls = [] → m = AverageMeter.init)) ∧
  (AverageMeter.total_count calls < 2 ^ 63 →
   ∃ m, AverageMeter.updates (AverageMeter.reset self) calls = inr m) ∧
  (∀ e, AverageMeter.updates (AverageMeter.reset self) calls = inl e →
     e = OverflowError).
Proof.
  intros Hn. split; [done|]. split; [done|]. split; [|split].
  - intros m Hm.
    destruct (updates_fields calls (AverageMeter.reset self) m Hn)
      as (Hcount & Hsum & Hval & Havg); [done|done|].
    split; [by rewrite Hcount|]. split; [done|]. split; [done|]. split.
    + intros Hne. by destruct (Havg Hne).
    + intros ->. cbn in Hm. by injection Hm as <-.
  - intros Hb. apply updates_return; [done|done|simpl; lia].
  - intros e. by apply updates_raise.
Qed.

Lemma average_meter_invariant_witness :
  ∃ m, AverageMeter.updates (AverageMeter.reset AverageMeter.init)
         [(0.75%float, 2); (0.5%float, 1)] = inr m ∧
    AverageMeter.count m = 3 ∧
    AverageMeter.sum m = 2%float ∧
    AverageMeter.val m = 0.5%float ∧
    AverageMeter.avg m = 0x1.5555555555555p-1%float.
Proof.
  destruct (average_meter_invariant AverageMeter.init
              [(0.75%float, 2); (0.5%float, 1)])
    as (_ & _ & Hfields & Hreturn & _).
  { repeat constructor; cbn; lia. }
  destruct Hreturn as [m Hm]; [done|].
  destruct (Hfields m Hm) as (Hcount & Hsum & Hval & Havg & _).
  exists m. split; [done|]. split; [done|]. split; [by rewrite Hsum|].
  split; [done|].
  destruct Havg as [-> _]; [done|]. rewrite Hsum, Hcount. reflexivity.
Defined.

(** The average is rounded as the code rounds it: one value 0.1 taken
    with weight 3 has an average just above 0.1. *)
Example average_meter_rounds :
  AverageMeter.avg <$> AverageMeter.updates AverageMeter.init
                         [(0x1.999999999999ap-4%float, 3)]
  = inr 0x1.999999999999bp-4%float.
Proof. reflexivity. Qed.

(** ** [create_model_optimizer_scheduler] *)

Record Harness (Model Optimizer Scheduler : Type) := {
  harness_model : Model;
  harness_optimizer : Optimizer;
  harness_scheduler : Scheduler;
  harness_printed_parameters : Z;
}.
Arguments harness_model {_ _ _}.
Arguments harness_optimizer {_ _ _}.
Arguments harness_scheduler {_ _ _}.
Arguments harness_printed_parameters {_ _ _}.

Section create_model_optimizer_scheduler.

(** The architectures, [model.parameters()], [model.cuda()] and the
    optimizer and scheduler constructors are the framework's; each may
    raise. *)
Context {Model Params Optimizer Scheduler : Type}.
Variable WideResNet : Z → Z → Z → float → result Model.
Variable densenet121 : Z → result Model.
Variable LeNet : Z → Z → float → Z → result Model.
Variable resnet18 : Z → result Model.
Variable parameters : Model → Params.
Variable nelements : Params → Z.
Variable cuda : Model → result Model.
Variable Adam : Params → result Optimizer.
Variable StepLR : Optimizer → Z → float → result Scheduler.

(** The branch on [args.arch]. *)
Definition construct_model (args : Args) (dataset_class : DatasetClass)
  : result Model :=
  if String.eqb (arch args) "wideresnet" then
    WideResNet (layers args) (num_classes dataset_class) (widen_factor args)
               (drop_rate args)
  else if String.eqb (arch args) "densenet" then
    densenet121 (num_classes dataset_class)
  else if String.eqb (arch args) "lenet" then
    LeNet 3 (num_classes dataset_class) (drop_rate args) (input_size dataset_class)
  else if String.eqb (arch args) "resnet" then
    resnet18 (num_classes dataset_class)
  else raise NotImplementedError.

(** [gamma=0.2], the nearest double. *)
Definition gamma : float := 0x1.999999999999ap-3%float.

Definition create_model_optimizer_scheduler (args : Args) (dataset_class : DatasetClass)
  : result (Harness Model Optimizer Scheduler) :=
  model ← construct_model args dataset_class;
  let printed := nelements (parameters model) in
  model ← cuda model;
  optimizer ← Adam (parameters model);
  scheduler ← StepLR optimizer 50 gamma;
  mret {| harness_model := model; harness_optimizer := optimizer;
          harness_scheduler := scheduler; harness_printed_parameters := printed |}.

(** The architectures the function knows. *)
Definition known_arch (a : string) : Prop :=
  a ∈ ["wideresnet"; "densenet"; "lenet"; "resnet"]%string.

(** Some framework call raises [e]. *)
Definition framework_raises (e : exn) : Prop :=
  (∃ a b c d, WideResNet a b c d = inl e) ∨ (∃ a, densenet121 a = inl e) ∨
  (∃ a b c d, LeNet a b c d = inl e) ∨ (∃ a, resnet18 a = inl e) ∨
  (∃ m, cuda m = inl e) ∨ (∃ p, Adam p = inl e) ∨
  (∃ o k g, StepLR o k g = inl e).

(** No framework call raises the builtin NotImplementedError. *)
Definition framework_exceptions_only : Prop :=
  (∀ a b c d, WideResNet a b c d ≠ inl NotImplementedError) ∧
  (∀ a, densenet121 a ≠ inl NotImplementedError) ∧
  (∀ a b c d, LeNet a b c d ≠ inl NotImplementedError) ∧
  (∀ a, resnet18 a ≠ inl NotImplementedError) ∧
  (∀ m, cuda m ≠ inl NotImplementedError) ∧
  (∀ p, Adam p ≠ inl NotImplementedError) ∧
  (∀ o k g, StepLR o k g ≠ inl NotImplementedError).

Lemma known_arch_cases (a : string) :
  known_arch a ↔
  String.eqb a "wideresnet" = true ∨ String.eqb a "densenet" = true ∨
  String.eqb a "lenet" = true ∨ String.eqb a "resnet" = true.
Proof.
  unfold known_arch. rewrite !elem_of_cons, elem_of_nil, !String.eqb_eq. tauto.
Qed.

Lemma construct_model_unknown args dc :
  ¬ known_arch (arch args) → construct_model args dc = inl NotImplementedError.
Proof.
  rewrite known_arch_cases. intros H. unfold construct_model.
  destruct (String.eqb (arch args) "wideresnet"); [exfalso; apply H; by left|].
  destruct (String.eqb (arch args) "densenet");
    [exfalso; apply H; right; by left|].
  destruct (String.eqb (arch args) "lenet");
    [exfalso; apply H; right; right; by left|].
  destruct (String.eqb (arch args) "resnet");
    [exfalso; apply H; right; right; by right|].
  reflexivity.
Qed.

Lemma construct_model_known args dc :
  framework_exceptions_only → known_arch (arch args) →
  construct_model args dc ≠ inl NotImplementedError.
Proof.
  intros (Hw & Hd & Hl & Hr & _) Hk%known_arch_cases. unfold construct_model.
  destruct (String.eqb (arch args) "wideresnet"); [apply Hw|].
  destruct (String.eqb (arch args) "densenet"); [apply Hd|].
  destruct (String.eqb (arch args) "lenet"); [apply Hl|].
  destruct (String.eqb (arch args) "resnet"); [apply Hr|].
  exfalso. destruct Hk as [?|[?|[?|?]]]; discriminate.
Qed.

Lemma construct_model_raises args dc e :
  construct_model args dc = inl e →
  (e = NotImplementedError ∧ ¬ known_arch (arch args)) ∨ framework_raises e.
Proof.
  unfold construct_model, framework_raises. rewrite known_arch_cases.
  destruct (String.eqb (arch args) "wideresnet"); [intros H; right; left; eauto|].
  destruct (String.eqb (arch args) "densenet");
    [intros H; right; right; left; eauto|].
  destruct (String.eqb (arch args) "lenet");
    [intros H; right; right; right; left; eauto|].
  destruct (String.eqb (arch args) "resnet");
    [intros H; right; right; right; right; left; eauto|].
  intros [= <-]. left. split; [done|]. intros [?|[?|[?|?]]]; discriminate.
Qed.

(** C5. [create_model_optimizer_scheduler] raises NotImplementedError, a
    builtin exception and the only one of its own, exactly when
    [args.arch] is none of 'wideresnet', 'densenet', 'lenet', 'resnet';
    for each of the four it calls the constructor of that architecture
    with the arguments of the code and, when that call, [cuda], [Adam] and
    [StepLR] return, returns the model moved to the device, its optimizer
    and its scheduler, having printed the number of parameters; anything
    else it raises is the exception of a framework call, passed on as it
    is. *)
Theorem create_model_optimizer_scheduler_raises (args : Args) (dc : DatasetClass) :
  framework_exceptions_only →
  (create_model_optimizer_scheduler args dc = inl NotImplementedError
   ↔ ¬ known_arch (arch args)) ∧
  (∀ m m' o s,
     (arch args = "wideresnet"%string ∧
      WideResNet (layers args) (num_classes dc) (widen_factor args) (drop_rate args)
        = inr m) ∨
     (arch args = "densenet"%string ∧ densenet121 (num_classes dc) = inr m) ∨
     (arch args = "lenet"%string ∧
      LeNet 3 (num_classes dc) (drop_rate args) (input_size dc) = inr m) ∨
     (arch args = "resnet"%string ∧ resnet18 (num_classes dc) = inr m) →
     cuda m = inr m' → Adam (parameters m') = inr o → StepLR o 50 gamma = inr s →
     create_model_optimizer_scheduler args dc
     = inr {| harness_model := m'; harness_optimizer := o; harness_scheduler := s;
              harness_printed_parameters := nelements (parameters m) |}) ∧
  (∀ e, create_model_optimizer_scheduler args dc = inl e →
     (e = NotImplementedError ∧ ¬ known_arch (arch args)) ∨ framework_raises e).
Proof.
  intros Hfw. split; [|split].
  - split.
    + intros Hraise Hk. pose proof (construct_model_known args dc Hfw Hk) as Hc.
      destruct Hfw as (_ & _ & _ & _ & Hcuda & HAdam & HStep).
      unfold create_model_optimizer_scheduler in Hraise.
      destruct (construct_model args dc) as [e|m]; cbn in Hraise; [congruence|].
      destruct (cuda m) as [e|m'] eqn:E1; cbn in Hraise;
        [injection Hraise as ->; by apply (Hcuda m)|].
      destruct (Adam _) as [e|o] eqn:E2; cbn in Hraise;
        [injection Hraise as ->; by eapply HAdam|].
      destruct (StepLR _ _ _) as [e|s] eqn:E3; cbn in Hraise;
        [injection Hraise as ->; by eapply HStep|done].
    + intros Hk. unfold create_model_optimizer_scheduler.
      by rewrite (construct_model_unknown args dc Hk).
  - intros m m' o s Hm Hc Ho Hs.
    assert (construct_model args dc = inr m) as Hcm.
    { unfold construct_model.
      destruct Hm as [[-> Hm]|[[-> Hm]|[[-> Hm]|[-> Hm]]]]; exact Hm. }
    unfold create_model_optimizer_scheduler. rewrite Hcm. cbn.
    rewrite Hc. cbn. rewrite Ho. cbn. by rewrite Hs.
  - intros e. unfold create_model_optimizer_scheduler.
    destruct (construct_model args dc) as [e0|m] eqn:Hcm; cbn.
    { intros [= <-]. by apply (construct_model_raises args dc). }
    unfold framework_raises.
    destruct (cuda m) as [e0|m'] eqn:E1; cbn;
      [intros [= ->]; right; do 4 right; left; eauto|].
    destruct (Adam _) as [e0|o] eqn:E2; cbn;
      [intros [= ->]; right; do 5 right; left; eauto|].
    destruct (StepLR _ _ _) as [e0|s] eqn:E3; cbn; [intros [= ->]|done].
    right. do 6 right. eauto.
Qed.

End create_model_optimizer_scheduler.

(** A stand-in framework whose calls all return: a model is its name, its
    parameters a count. *)
Module SampleFramework.

Definition WideResNet : Z → Z → Z → float → result string := λ _ _ _ _, inr "wideresnet"%string.
Definition densenet121 : Z → result string := λ _, inr "densenet121"%string.
Definition LeNet : Z → Z → float → Z → result string := λ _ _ _ _, inr "lenet"%string.
Definition resnet18 : Z → result string := λ _, inr "resnet18"%string.
Definition parameters : string → Z := λ m, Z.of_nat (String.length m).
Definition nelements : Z → Z := λ p, p.
Definition cuda : string → result string := λ m, inr m.
Definition Adam : Z → result Z := λ p, inr p.
Definition StepLR : Z → Z → float → result (Z * Z) := λ o k _, inr (o, k).

Definition args (a : string) : Args :=
  {| arch := a; layers := 28; widen_factor := 2; drop_rate := 0.5%float;
     checkpoint_path := "runs"; name := "cifar10"; resume := "";
     start_epoch := 0; weak_supervision_strategy := "random";
     add_labeled_ratio := 0.25%float; batch_size := 2 |}.

Definition dataset_class : DatasetClass :=
  {| labeled_ratio := 0.5%float; dataset_add_labeled_ratio := 0.25%float;
     num_classes := 10; input_size := 32; add_labeled_num := None;
     remove_classes := [0; 1; 2] |}.

Definition create (a : string) : result (Harness string Z (Z * Z)) :=
  create_model_optimizer_scheduler WideResNet densenet121 LeNet resnet18
    parameters nelements cuda Adam StepLR (args a) dataset_class.

End SampleFramework.

Lemma create_model_optimizer_scheduler_raises_witness :
  SampleFramework.create "vgg" = inl NotImplementedError ∧
  harness_model <$> SampleFramework.create "wideresnet" = inr "wideresnet"%string ∧
  harness_model <$> SampleFramework.create "densenet" = inr "densenet121"%string ∧
  harness_model <$> SampleFramework.create "lenet" = inr "lenet"%string ∧
  harness_model <$> SampleFramework.create "resnet" = inr "resnet18"%string.
Proof.
  assert (framework_exceptions_only SampleFramework.WideResNet
            SampleFramework.densenet121 SampleFramework.LeNet
            SampleFramework.resnet18 SampleFramework.cuda SampleFramework.Adam
            SampleFramework.StepLR) as Hfw by (by repeat split).
  pose proof (λ a, create_model_optimizer_scheduler_raises
                 SampleFramework.WideResNet SampleFramework.densenet121
                 SampleFramework.LeNet SampleFramework.resnet18
                 SampleFramework.parameters SampleFramework.nelements
                 SampleFramework.cuda SampleFramework.Adam SampleFramework.StepLR
                 (SampleFramework.args a) SampleFramework.dataset_class Hfw) as H.
  unfold SampleFramework.create. split_and!.
  - apply (proj1 (H "vgg"%string)).
    unfold known_arch. cbn. rewrite !elem_of_cons, elem_of_nil.
    intros [?|[?|[?|[?|[]]]]]; discriminate.
  - rewrite (proj1 (proj2 (H "wideresnet"%string)) "wideresnet"%string
               "wideresnet"%string 10 (10, 50)); [done| |done..].
    by left.
  - rewrite (proj1 (proj2 (H "densenet"%string)) "densenet121"%string
               "densenet121"%string 11 (11, 50)); [done| |done..].
    right. by left.
  - rewrite (proj1 (proj2 (H "lenet"%string)) "lenet"%string
               "lenet"%string 5 (5, 50)); [done| |done..].
    right. right. by left.
  - rewrite (proj1 (proj2 (H "resnet"%string)) "resnet18"%string
               "resnet18"%string 8 (8, 50)); [done| |done..].
    right. right. by right.
Defined.

(** ** [resume_model] *)

Module Path.

Definition starts_with_sep (s : string) : bool :=
  match s with String c _ => Ascii.eqb c "/"%char | EmptyString => false end.

Fixpoint ends_with_sep (s : string) : bool :=
  match s with
  | EmptyString => false
  | String c EmptyString => Ascii.eqb c "/"%char
  | String _ s' => ends_with_sep s'
  end.

(** One step of [os.path.join]: an absolute component restarts the path. *)
Definition join2 (path b : string) : string :=
  if starts_with_sep b then b
  else if String.eqb path "" || ends_with_sep path then (path ++ b)%string
  else (path ++ "/" ++ b)%string.

(** [os.path.join(a, b, c)]. *)
Definition join (a b c : string) : string := join2 (join2 a b) c.

End Path.

Section resume_model.

(** The file system and the checkpoint loader are the environment's. *)
Context {Model StateDict : Type}.
Variable isfile : string → bool.
Variable torch_load : string → result (Z * StateDict).
Variable load_state_dict : Model → StateDict → result Model.

Inductive ResumeLog :=
  | Loaded (file : string) (resumed : string) (epoch : Z)
  | NoCheckpoint (file : string).

(** Returns the model, with the [args] object as the call leaves it and
    what was printed last. *)
Definition resume_model (args : Args) (model : Model)
  : result (Model * Args * ResumeLog) :=
  let file := Path.join (checkpoint_path args) (name args) "model_best.pth.tar" in
  if isfile file then
    '(epoch, state_dict) ← torch_load file;
    let args :=
      {| arch := arch args; layers := layers args; widen_factor := widen_factor args;
         drop_rate := drop_rate args; checkpoint_path := checkpoint_path args;
         name := name args; resume := resume args; start_epoch := epoch;
         weak_supervision_strategy := weak_supervision_strategy args;
         add_labeled_ratio := add_labeled_ratio args;
         batch_size := batch_size args |} in
    model ← load_state_dict model state_dict;
    mret (model, args, Loaded file (resume args) epoch)
  else
    mret (model, args, NoCheckpoint file).

(** C9. When the file [checkpoint_path/name/model_best.pth.tar] does not
    exist, [resume_model] does not raise: it returns the model it was
    given and leaves [args], [start_epoch] included, as it was. *)
Theorem resume_model_no_checkpoint (args : Args) (model : Model) :
  isfile (Path.join (checkpoint_path args) (name args) "model_best.pth.tar") = false →
  ∃ log, resume_model args model = inr (model, args, log) ∧
    log = NoCheckpoint
            (Path.join (checkpoint_path args) (name args) "model_best.pth.tar").
Proof. intros H. unfold resume_model. rewrite H. by eexists. Qed.

End resume_model.

Example path_join_runs :
  Path.join "runs" "cifar10@resnet" "model_best.pth.tar"
  = "runs/cifar10@resnet/model_best.pth.tar"%string.
Proof. reflexivity. Qed.

Lemma resume_model_no_checkpoint_witness :
  ∃ log,
    resume_model (λ _, false) (λ _, inl (FrameworkError "no such file"))
      (λ (m : string) (_ : unit), inr m) (Sample.args "random") "model"%string
    = inr ("model"%string, Sample.args "random", log).
Proof.
  destruct (resume_model_no_checkpoint (λ _, false)
              (λ _, inl (FrameworkError "no such file"))
              (λ (m : string) (_ : unit), inr m) (Sample.args "random")
              "model"%string eq_refl) as (log & H & _).
  by exists log.
Defined.

(** ** Sampling without replacement *)

Lemma draw_all_perm {A} (rng : Rng.Generator) (n : nat) : ∀ pool : list A,
  length pool = n → Rng.draw_all rng n pool ≡ₚ pool.
Proof.
  induction n as [|n IH]; intros pool Hl.
  - by apply nil_length_inv in Hl as ->.
  - cbn [Rng.draw_all].
    assert (rng n `mod` length pool < length pool)%nat as Hj
      by (apply Nat.mod_upper_bound; lia).
    destruct (lookup_lt_is_Some_2 pool _ Hj) as [x Hx]. rewrite Hx.
    rewrite IH.
    + symmetry. by apply delete_Permutation.
    + rewrite length_delete by eauto. lia.
Qed.

Lemma permutation_perm {A} (rng : Rng.Generator) (a : list A) :
  Rng.permutation rng a ≡ₚ a.
Proof. by apply draw_all_perm. Qed.

(** [rng.choice(n, size=k, replace=False)] for [0 <= k <= n]: [k] distinct
    elements of [arange(n)], whatever the generator draws. *)
Lemma choice_spec (rng : Rng.Generator) (n : nat) (k : Z) :
  0 <= k <= Z.of_nat n →
  ∃ S, Rng.choice rng n (Some k) = inr S ∧
    Z.of_nat (length S) = k ∧ NoDup S ∧
    Forall (λ p, 0 <= p < Z.of_nat n) S.
Proof.
  intros Hk. unfold Rng.choice.
  rewrite !bool_decide_eq_false_2 by lia.
  pose proof (permutation_perm rng (seqZ 0 (Z.of_nat n))) as Hperm.
  eexists. split; [done|]. split; [|split].
  - rewrite length_take_le; [lia|].
    rewrite Hperm, length_seqZ. lia.
  - eapply sublist_NoDup; [|apply sublist_take].
    rewrite Hperm. apply NoDup_seqZ.
  - apply Forall_forall. intros p Hp.
    assert (p ∈ seqZ 0 (Z.of_nat n)) as Hin.
    { rewrite <- Hperm. apply elem_of_take in Hp as (i & Hi & _).
      by eapply list_elem_of_lookup_2. }
    apply elem_of_seqZ in Hin. lia.
Qed.

(** ** The per-round budget *)

(** [int(len(base_dataset) * add_labeled_ratio)]. *)
Definition budget (n : nat) (ratio : float) : result Z :=
  Num.int_of_float (PrimFloat.mul (Num.float_of_nat n) ratio).

Example budget_cifar10 :
  budget (Z.to_nat 50000) 0x1.999999999999ap-5%float = inr 2500.
Proof. reflexivity. Qed.

Lemma stratified_random_sampling_spec (rng : Rng.Generator) (U : list Z) (number : Z) :
  0 <= number <= Z.of_nat (length U) →
  ∃ S, stratified_random_sampling rng U (Some number) = inr S ∧
    Z.of_nat (length S) = number ∧ NoDup S ∧ valid_positions U S.
Proof. intros H. by apply choice_spec. Qed.

(** ** [Cifar10Dataset] *)

(** [Cifar10Dataset.__init__]. *)
Definition Cifar10Dataset (labeled_ratio add_labeled_ratio : float) : DatasetClass :=
  {| labeled_ratio := labeled_ratio;
     dataset_add_labeled_ratio := add_labeled_ratio;
     num_classes := 10; input_size := 32; add_labeled_num := None;
     remove_classes := [0; 1; 2] |}.

(** [train_test_split(arr, test_size=test_size, shuffle=True, stratify=None)]:
    a float [test_size] must lie strictly between 0 and 1; the test part
    holds [ceil(test_size * n)] samples and the train part the others, which
    may not be none; the array is shuffled, the test part cut from its
    front and the train part from what follows. *)
Definition train_test_split {A} (rng : Rng.Generator) (arr : list A)
    (test_size : float) : result (list A * list A) :=
  let n_samples := length arr in
  if negb (PrimFloat.ltb 0 test_size && PrimFloat.ltb test_size 1) then
    raise ValueError
  else
    n_test ← Num.ceil_of_float (PrimFloat.mul test_size (Num.float_of_nat n_samples));
    let n_train := Z.of_nat n_samples - n_test in
    if bool_decide (n_train = 0) then raise ValueError
    else
      let shuffled := Rng.permutation rng arr in
      let test := take (Z.to_nat n_test) shuffled in
      let train := take (Z.to_nat n_train) (drop (Z.to_nat n_test) shuffled) in
      mret (train, test).

(** [np.isin(t, classes)] for one element. *)
Definition isin (t : Z) (classes : list Z) : bool := bool_decide (t ∈ classes).

(** What [get_dataset] returns, with the dataset class as it leaves it. *)
Record Split := {
  split_class : DatasetClass;
  split_labeled_dataset : Dataset;
  split_unlabeled_dataset : Dataset;
  split_labeled_indices : list Z;
  split_unlabeled_indices : list Z;
  split_test_dataset : Dataset;
}.

(** [get_dataset]; the base and test datasets are given by their targets. *)
Definition get_dataset (rng : Rng.Generator) (self : DatasetClass)
    (base_targets test_targets : list Z) : result Split :=
  let n := length base_targets in
  number ← budget n (dataset_add_labeled_ratio self);
  let self :=
    {| labeled_ratio := labeled_ratio self;
       dataset_add_labeled_ratio := dataset_add_labeled_ratio self;
       num_classes := num_classes self; input_size := input_size self;
       add_labeled_num := Some number;
       remove_classes := remove_classes self |} in
  '(labeled_indices, unlabeled_indices) ←
    train_test_split rng (seqZ 0 (Z.of_nat n))
      (PrimFloat.sub 1 (labeled_ratio self));
  tgts ← index_checked (getitems base_targets labeled_indices);
  let labeled_indices :=
    bool_index labeled_indices
      ((λ t, negb (isin t (remove_classes self))) <$> tgts) in
  mret {| split_class := self;
          split_labeled_dataset :=
            {| targets := base_targets; indices := labeled_indices |};
          split_unlabeled_dataset :=
            {| targets := base_targets; indices := unlabeled_indices |};
          split_labeled_indices := labeled_indices;
          split_unlabeled_indices := unlabeled_indices;
          split_test_dataset :=
            {| targets := test_targets; indices := seqZ 0 (Z.of_nat (length test_targets)) |} |}.

Example get_dataset_8 :
  ∃ r, get_dataset Sample.rng (Cifar10Dataset 0.5 0.25) [3; 4; 5; 6; 0; 7; 1; 8] [9]
         = inr r ∧
    split_labeled_indices r = [5; 7] ∧
    split_unlabeled_indices r = [0; 1; 2; 3] ∧
    add_labeled_num (split_class r) = Some 2.
Proof. eexists. split; [reflexivity|]. by repeat split. Qed.

Lemma train_test_split_perm {A} (rng : Rng.Generator) (arr : list A)
    (test_size : float) (train test : list A) :
  train_test_split rng arr test_size = inr (train, test) →
  test ++ train ≡ₚ arr.
Proof.
  unfold train_test_split. destruct (negb _); [done|].
  destruct (Num.ceil_of_float _) as [e|n_test]; [done|]. cbn.
  case_bool_decide as Hn; [done|]. cbn. intros [= <- <-].
  pose proof (permutation_perm rng arr) as Hperm.
  rewrite (take_ge (drop _ _)).
  - by rewrite take_drop.
  - rewrite length_drop, (Permutation_length Hperm). lia.
Qed.

(** What the class filter keeps: the positions whose target is outside
    the removed classes. *)
Lemma bool_index_filter (base train tgts : list Z) (removed : list Z) :
  getitems base train = Some tgts →
  bool_index train ((λ t, negb (isin t removed)) <$> tgts) `sublist_of` train ∧
  ∀ x, x ∈ bool_index train ((λ t, negb (isin t removed)) <$> tgts) ↔
       x ∈ train ∧ ∃ t, getitem base x = Some t ∧ t ∉ removed.
Proof.
  unfold getitems. intros H%mapM_Some.
  induction H as [|x t train tgts Hx H IH]; csimpl.
  - split; [done|]. intros x. split; [by intros ?%elem_of_nil|].
    by intros [?%elem_of_nil _].
  - destruct IH as [Hsub Hin]. destruct (isin t removed) eqn:Ht; cbn [negb].
    + apply bool_decide_eq_true in Ht.
      split; [by apply sublist_cons|]. intros y. rewrite Hin, elem_of_cons.
      split; [intros [? ?]; split; [by right|done]|].
      intros [[->|?] (t' & Ht' & Hn)]; [|eauto].
      rewrite Hx in Ht'. by injection Ht' as ->.
    + apply bool_decide_eq_false in Ht.
      split; [by apply sublist_skip|]. intros y. rewrite !elem_of_cons, Hin.
      split.
      * intros [->|[? ?]]; [split; [by left|by exists t]|split; [by right|done]].
      * intros [[->|?] ?]; [by left|by right].
Qed.

Lemma get_dataset_inv rng self base_targets test_targets r :
  get_dataset rng self base_targets test_targets = inr r →
  ∃ number train tgts,
    budget (length base_targets) (dataset_add_labeled_ratio self) = inr number ∧
    train_test_split rng (seqZ 0 (Z.of_nat (length base_targets)))
      (PrimFloat.sub 1 (labeled_ratio self))
      = inr (train, split_unlabeled_indices r) ∧
    getitems base_targets train = Some tgts ∧
    split_labeled_indices r =
      bool_index train ((λ t, negb (isin t (remove_classes self))) <$> tgts) ∧
    add_labeled_num (split_class r) = Some number.
Proof.
  unfold get_dataset. destruct (budget _ _) as [e|number]; [done|]. cbn.
  destruct (train_test_split _ _ _) as [e|[train test]]; [done|]. cbn.
  destruct (getitems base_targets train) as [tgts|] eqn:Hg; [|done]. cbn.
  intros [= <-]. cbn. by exists number, train, tgts.
Qed.

(** [get_dataset] returns as soon as the budget and the split are defined. *)
Lemma get_dataset_returns rng self base_targets test_targets number train test :
  budget (length base_targets) (dataset_add_labeled_ratio self) = inr number →
  train_test_split rng (seqZ 0 (Z.of_nat (length base_targets)))
    (PrimFloat.sub 1 (labeled_ratio self)) = inr (train, test) →
  ∃ r, get_dataset rng self base_targets test_targets = inr r ∧
    split_unlabeled_indices r = test.
Proof.
  intros Hb Hs. unfold get_dataset. rewrite Hb. cbn. rewrite Hs. cbn.
  pose proof (train_test_split_perm _ _ _ _ _ Hs) as Hperm.
  assert (valid_positions base_targets train) as Hv.
  { apply Forall_forall. intros x Hx.
    assert (x ∈ seqZ 0 (Z.of_nat (length base_targets))) as Hin
      by (rewrite <- Hperm; apply elem_of_app; by right).
    apply elem_of_seqZ in Hin. lia. }
  assert (∃ tgts, getitems base_targets train = Some tgts) as [tgts ->].
  { clear Hs Hperm. unfold getitems. induction Hv as [|x train Hx _ [tgts IH]].
    - by exists [].
    - destruct (getitem_valid base_targets x Hx) as (t & Ht & _).
      exists (t :: tgts). apply mapM_Some. constructor; [done|].
      by apply mapM_Some. }
  cbn. by eexists.
Qed.

(** C8. The index arrays [get_dataset] returns, for every [labeled_ratio]
    (and so for every one in (0, 1)): they are duplicate-free, disjoint
    and within [0, len(base_dataset)); a labeled index is an index of the
    train part of the split whose target is outside
    [remove_classes = {0, 1, 2}]; the unlabeled indices are the whole test
    part of the split, whatever their class; and the two arrays need not
    cover the training set. [get_dataset] returns whenever the budget and
    the split are defined. *)
Theorem get_dataset_split rng labeled_ratio add_labeled_ratio
    base_targets test_targets r :
  get_dataset rng (Cifar10Dataset labeled_ratio add_labeled_ratio)
    base_targets test_targets = inr r →
  ∃ train,
    train_test_split rng (seqZ 0 (Z.of_nat (length base_targets)))
      (PrimFloat.sub 1 labeled_ratio) = inr (train, split_unlabeled_indices r) ∧
    split_unlabeled_indices r ++ train ≡ₚ seqZ 0 (Z.of_nat (length base_targets)) ∧
    NoDup (split_labeled_indices r) ∧ NoDup (split_unlabeled_indices r) ∧
    disjoint_indices (split_labeled_indices r) (split_unlabeled_indices r) ∧
    valid_positions base_targets (split_labeled_indices r) ∧
    valid_positions base_targets (split_unlabeled_indices r) ∧
    (∀ x, x ∈ split_labeled_indices r ↔
          x ∈ train ∧ ∃ t, getitem base_targets x = Some t ∧ t ∉ [0; 1; 2]) ∧
    (∃ r', get_dataset Sample.rng (Cifar10Dataset 0.5 0.25)
             [3; 4; 5; 6; 0; 7; 1; 8] [9] = inr r' ∧
           4 ∉ split_labeled_indices r' ++ split_unlabeled_indices r').
Proof.
  intros Hr.
  destruct (get_dataset_inv _ _ _ _ _ Hr) as (number & train & tgts & _ & Hs & Hg & HL & _).
  cbn in Hs, HL.
  pose proof (train_test_split_perm _ _ _ _ _ Hs) as Hperm.
  destruct (bool_index_filter base_targets train tgts [0; 1; 2] Hg) as [Hsub Hin].
  rewrite <- HL in Hsub, Hin.
  assert (NoDup (split_unlabeled_indices r ++ train)) as Hnd
    by (rewrite Hperm; apply NoDup_seqZ).
  apply NoDup_app in Hnd as (HndU & Hsep & Hndt).
  assert (∀ x, x ∈ split_unlabeled_indices r ++ train →
               0 <= x < Z.of_nat (length base_targets)) as Hrange.
  { intros x Hx. rewrite Hperm in Hx. apply elem_of_seqZ in Hx. lia. }
  exists train. split; [done|]. split; [done|].
  split; [by eapply sublist_NoDup|]. split; [done|]. split; [|split; [|split; [|split]]].
  - intros x HxL HxU. apply (Hsep x HxU). by apply Hin in HxL as [? _].
  - apply Forall_forall. intros x Hx. apply Hrange, elem_of_app. right.
    by apply Hin in Hx as [? _].
  - apply Forall_forall. intros x Hx. apply Hrange, elem_of_app. by left.
  - done.
  - eexists. split; [reflexivity|]. cbn. compute_done.
Qed.

Lemma get_dataset_split_witness :
  ∃ r train,
    get_dataset Sample.rng (Cifar10Dataset 0.5 0.25) [3; 4; 5; 6; 0; 7; 1; 8] [9]
      = inr r ∧
    split_unlabeled_indices r ++ train ≡ₚ seqZ 0 8 ∧
    disjoint_indices (split_labeled_indices r) (split_unlabeled_indices r).
Proof.
  eexists. 
  edestruct (get_dataset_split Sample.rng 0.5 0.25 [3; 4; 5; 6; 0; 7; 1; 8] [9])
    as (train & _ & Hperm & _ & _ & Hdis & _); [reflexivity|].
  exists train. split; [reflexivity|]. by split.
Defined.

Module SampleSplit.

(** What [get_dataset] returns on a base dataset of eight samples. *)
Definition r : Split :=
  Eval vm_compute in
    match get_dataset Sample.rng (Cifar10Dataset 0.5 0.25)
            [3; 4; 5; 6; 0; 7; 1; 8] [9] with
    | inr r => r
    | inl _ =>
        {| split_class := Cifar10Dataset 0.5 0.25;
           split_labeled_dataset := Sample.dataset [] [];
           split_unlabeled_dataset := Sample.dataset [] [];
           split_labeled_indices := []; split_unlabeled_indices := [];
           split_test_dataset := Sample.dataset [] [] |}
    end.

(** A round of the default random strategy on it. *)
Definition round : result Round :=
  perform_sampling (Sample.uncertainty []) (Sample.pseudo [] []) Sample.accepts_kwargs
    Sample.rng (Sample.args "random") 0 tt
    (Sample.loader (split_labeled_dataset r)) (Sample.loader (split_unlabeled_dataset r))
    (split_class r) (split_labeled_indices r) (split_unlabeled_indices r)
    (split_labeled_dataset r) (split_unlabeled_dataset r) (split_test_dataset r)
    Sample.kwargs 0.25%float tt.

End SampleSplit.

(** ** The pool of indices across a run *)

(** The index arrays [get_dataset] returns hold no index twice, taken
    together. *)
Lemma get_dataset_NoDup rng self base_targets test_targets r :
  get_dataset rng self base_targets test_targets = inr r →
  NoDup (split_labeled_indices r ++ split_unlabeled_indices r).
Proof.
  intros Hr.
  destruct (get_dataset_inv _ _ _ _ _ Hr) as (number & train & tgts & _ & Hs & Hg & HL & _).
  pose proof (train_test_split_perm _ _ _ _ _ Hs) as Hperm.
  destruct (bool_index_filter base_targets train tgts (remove_classes self) Hg)
    as [Hsub Hin].
  rewrite <- HL in Hsub, Hin.
  assert (NoDup (split_unlabeled_indices r ++ train)) as Hnd
    by (rewrite Hperm; apply NoDup_seqZ).
  apply NoDup_app in Hnd as (HndU & Hsep & Hndt).
  apply NoDup_app. split; [by eapply sublist_NoDup|]. split; [|done].
  intros x HxL HxU. apply (Hsep x HxU). by apply Hin in HxL as [? _].
Qed.

Section run_pool.
Context {Model : Type}.
Variable uncertainty_get_samples :
  Z → Args → Model → DataLoader → DataLoader → option Z → result (list Z).
Variable pseudo_get_samples :
  Z → Args → Model → DataLoader → option Z → result (list Z * list Z).
Variable accepts_kwargs : Kwargs → result unit.

Local Abbreviation perform :=
  (perform_sampling uncertainty_get_samples pseudo_get_samples accepts_kwargs).
Local Abbreviation sampled :=
  (sampled_positions uncertainty_get_samples pseudo_get_samples).

(** The labeled and unlabeled index arrays a run can hold: those
    [get_dataset] returns, and those a round returns when it is run on
    arrays a run can hold, with a strategy that gives pairwise-distinct
    valid positions. *)
Inductive pool_of_run : list Z → list Z → Prop :=
  | pool_of_get_dataset rng self base_targets test_targets r :
      get_dataset rng self base_targets test_targets = inr r →
      pool_of_run (split_labeled_indices r) (split_unlabeled_indices r)
  | pool_of_round rng args epoch model tl ul dc L U ld ud td kwargs ratio best S r :
      pool_of_run L U →
      sampled rng args epoch model tl ul dc U best = inr S →
      NoDup S → valid_positions U S →
      perform rng args epoch model tl ul dc L U ld ud td kwargs ratio best = inr r →
      pool_of_run (round_labeled_indices r) (round_unlabeled_indices r).

Lemma pool_of_run_NoDup (L U : list Z) : pool_of_run L U → NoDup (L ++ U).
Proof.
  induction 1 as [rng self base_targets test_targets r Hr
                 |rng args epoch model tl ul dc L U ld ud td kwargs ratio best S r
                    _ IH Hs Hnd Hv Hr].
  - by eapply get_dataset_NoDup.
  - destruct (perform_sampling_indices _ _ _ _ _ _ _ _ _ _ _ _ _ _ _ _ _ _ _ _
                Hs Hv Hr) as (-> & -> & _).
    destruct (pool_preserved L U S) as (_ & _ & Hperm). by rewrite Hperm.
Qed.

(** C3. In every branch of [perform_sampling], on the index arrays of a
    run and when the strategy returns pairwise-distinct valid positions
    into the unlabeled index array, a round that returns preserves the
    pool: every index added to the labeled list comes from the unlabeled
    list; the two lists, disjoint before the round, are disjoint after it;
    and together they hold the same multiset of indices as before.
    Outside the semi-supervised branch the round returns when the loaders
    can be built on the new index arrays, and in no branch otherwise. *)
Theorem perform_sampling_preserves_pool
    rng args epoch model tl ul dc L U ld ud td kwargs ratio best S :
  pool_of_run L U →
  sampled rng args epoch model tl ul dc U best = inr S →
  NoDup S → valid_positions U S →
  disjoint_indices L U ∧
  (weak_supervision_strategy args ≠ "semi_supervised"%string →
   loaders_ok accepts_kwargs args td (L ++ at_positions S U) (off_positions S U) kwargs →
   ∃ r, perform rng args epoch model tl ul dc L U ld ud td kwargs ratio best = inr r) ∧
  (¬ loaders_ok accepts_kwargs args td (L ++ at_positions S U) (off_positions S U) kwargs →
   ∃ e, perform rng args epoch model tl ul dc L U ld ud td kwargs ratio best = inl e) ∧
  ∀ r, perform rng args epoch model tl ul dc L U ld ud td kwargs ratio best = inr r →
    ∃ added,
      round_labeled_indices r = L ++ added ∧
      length added = length S ∧
      (∀ x, x ∈ added → x ∈ U) ∧
      round_labeled_indices r ++ round_unlabeled_indices r ≡ₚ L ++ U ∧
      disjoint_indices (round_labeled_indices r) (round_unlabeled_indices r) ∧
      pool_of_run (round_labeled_indices r) (round_unlabeled_indices r).
Proof.
  intros Hpool Hs Hnd Hv.
  pose proof (pool_of_run_NoDup L U Hpool) as HndLU.
  apply NoDup_app in HndLU as (_ & Hdis & HndU).
  split; [done|]. split; [|split].
  { intros Hne Hok. by eapply perform_sampling_returns. }
  { intros Hno. by eapply perform_sampling_needs_loaders. }
  intros r Hr.
  pose proof (pool_of_round _ _ _ _ _ _ _ _ _ _ _ _ _ _ _ _ _ Hpool Hs Hnd Hv Hr)
    as Hpool'.
  destruct (perform_sampling_indices _ _ _ _ _ _ _ _ _ _ _ _ _ _ _ _ _ _ _ _
              Hs Hv Hr) as (HL & HU & _).
  rewrite HL, HU in *.
  destruct (pool_preserved L U S) as (Hsub & Hdis' & Hperm).
  destruct (at_positions_getitems U S Hnd Hv) as (xs & _ & Hxs & Hlen).
  exists (at_positions S U). split_and!; try done.
  - by rewrite Hxs.
  - by apply Hdis'.
Qed.

End run_pool.

Lemma perform_sampling_preserves_pool_witness :
  sampled_positions (Sample.uncertainty []) (Sample.pseudo [] []) Sample.rng
    (Sample.args "random") 0 tt
    (Sample.loader (split_labeled_dataset SampleSplit.r))
    (Sample.loader (split_unlabeled_dataset SampleSplit.r))
    (split_class SampleSplit.r) (split_unlabeled_indices SampleSplit.r) tt
    = inr [0; 1] ∧
  ∃ r, SampleSplit.round = inr r ∧
    round_labeled_indices r ++ round_unlabeled_indices r
      ≡ₚ split_labeled_indices SampleSplit.r ++ split_unlabeled_indices SampleSplit.r ∧
    disjoint_indices (round_labeled_indices r) (round_unlabeled_indices r).
Proof.
  split; [reflexivity|].
  destruct (perform_sampling_preserves_pool (Sample.uncertainty []) (Sample.pseudo [] [])
              Sample.accepts_kwargs Sample.rng (Sample.args "random") 0 tt
              (Sample.loader (split_labeled_dataset SampleSplit.r))
              (Sample.loader (split_unlabeled_dataset SampleSplit.r))
              (split_class SampleSplit.r)
              (split_labeled_indices SampleSplit.r)
              (split_unlabeled_indices SampleSplit.r)
              (split_labeled_dataset SampleSplit.r)
              (split_unlabeled_dataset SampleSplit.r)
              (split_test_dataset SampleSplit.r) Sample.kwargs 0.25%float tt [0; 1])
    as (_ & Hreturns & _ & Hround).
  - apply (pool_of_get_dataset (Sample.uncertainty []) (Sample.pseudo [] [])
             Sample.accepts_kwargs Sample.rng (Cifar10Dataset 0.5 0.25)
             [3; 4; 5; 6; 0; 7; 1; 8] [9] SampleSplit.r).
    reflexivity.
  - reflexivity.
  - compute_done.
  - unfold valid_positions. repeat constructor; simpl; lia.
  - destruct Hreturns as [r Hr]; [done|by repeat split|].
    exists r. split; [exact Hr|].
    destruct (Hround r Hr) as (added & _ & _ & _ & Hperm & Hdis & _).
    split; [exact Hperm|exact Hdis].
Defined.

(** The positions drawn by the default random strategy, handed to
    [postprocess_indices], move exactly [number] indices. *)
Lemma random_positions_move rng (L U : list Z) (number : Z) :
  0 <= number <= Z.of_nat (length U) →
  ∃ S, stratified_random_sampling rng U (Some number) = inr S ∧
    Z.of_nat (length S) = number ∧ NoDup S ∧ valid_positions U S ∧
    postprocess_indices L U S = Some (L ++ at_positions S U, off_positions S U) ∧
    Z.of_nat (length (L ++ at_positions S U)) = Z.of_nat (length L) + number ∧
    Z.of_nat (length (off_positions S U)) + number = Z.of_nat (length U).
Proof.
  intros Hrange.
  destruct (stratified_random_sampling_spec rng U number Hrange)
    as (S & HS & Hlen & Hnd & Hv).
  destruct (at_positions_getitems U S Hnd Hv) as (xs & _ & Hperm & Hxs).
  pose proof (select_from_length_split (λ i, bool_decide (Z.of_nat i ∈ S)) U 0) as Hsplit.
  assert (length (at_positions S U) = length S) as Hat by (by rewrite Hperm).
  exists S. split_and!; try done.
  - by apply postprocess_indices_valid.
  - rewrite length_app. lia.
  - unfold at_positions, off_positions in *. lia.
Qed.

(** A round of the default random strategy returns exactly when the
    loaders can be built on what it leaves, and then it has moved exactly
    [number] indices. *)
Lemma random_round_moves {Model : Type}
    (us : Z → Args → Model → DataLoader → DataLoader → option Z → result (list Z))
    (ps : Z → Args → Model → DataLoader → option Z → result (list Z * list Z))
    (accepts_kwargs : Kwargs → result unit)
    rng args epoch model tl ul dc L U ld ud td kwargs ratio best number :
  weak_supervision_strategy args ≠ "active_learning"%string →
  weak_supervision_strategy args ≠ "semi_supervised"%string →
  add_labeled_num dc = Some number →
  0 <= number <= Z.of_nat (length U) →
  ((∃ round, perform_sampling us ps accepts_kwargs rng args epoch model tl ul dc
               L U ld ud td kwargs ratio best = inr round) ↔
   accepts_kwargs kwargs = inr () ∧ 0 < Z.of_nat (length L) + number ∧
   number < Z.of_nat (length U) ∧ indices td ≠ [] ∧ 0 < batch_size args) ∧
  ∀ round,
    perform_sampling us ps accepts_kwargs rng args epoch model tl ul dc
      L U ld ud td kwargs ratio best = inr round →
    Z.of_nat (length (round_labeled_indices round)) = Z.of_nat (length L) + number ∧
    Z.of_nat (length (round_unlabeled_indices round)) + number = Z.of_nat (length U).
Proof.
  intros Ha Hs Hnum Hrange.
  destruct (random_positions_move rng L U number Hrange)
    as (S & HS & Hlen & Hnd & Hv & _ & HlenL & HlenU).
  assert (sampled_positions us ps rng args epoch model tl ul dc U best = inr S) as Hsp.
  { unfold sampled_positions.
    rewrite (proj2 (String.eqb_neq _ _) Ha), (proj2 (String.eqb_neq _ _) Hs).
    by rewrite Hnum. }
  assert (loaders_ok accepts_kwargs args td (L ++ at_positions S U)
            (off_positions S U) kwargs ↔
          accepts_kwargs kwargs = inr () ∧ 0 < Z.of_nat (length L) + number ∧
          number < Z.of_nat (length U) ∧ indices td ≠ [] ∧ 0 < batch_size args) as Hok.
  { unfold loaders_ok. rewrite <- HlenL.
    assert (number < Z.of_nat (length U) ↔ off_positions S U ≠ []) as ->.
    { destruct (off_positions S U); cbn in *; split; try done; lia. }
    assert (0 < Z.of_nat (length (L ++ at_positions S U)) ↔ L ++ at_positions S U ≠ [])
      as ->; [|done].
    destruct (L ++ at_positions S U); cbn; split; try done; lia. }
  split.
  - rewrite <- Hok. split.
    + intros [round Hround].
      by destruct (perform_sampling_indices us ps accepts_kwargs _ _ _ _ _ _ _ _ _ _ _ _
                     _ _ _ _ _ Hsp Hv Hround) as (_ & _ & ?).
    + intros Hl. by eapply perform_sampling_returns.
  - intros round Hround.
    destruct (perform_sampling_indices us ps accepts_kwargs _ _ _ _ _ _ _ _ _ _ _ _
                _ _ _ _ _ Hsp Hv Hround) as (-> & -> & _).
    done.
Qed.

(** C6. The per-round budget is a fixed count: [get_dataset] sets
    [add_labeled_num] to [int(len(base_dataset) * add_labeled_ratio)]; for
    every unlabeled index array at least that long (the count being
    nonnegative), [stratified_random_sampling] returns exactly that many
    pairwise-distinct valid positions, whatever the generator draws, and
    [postprocess_indices] moves exactly that many indices from the
    unlabeled list to the labeled list on them. A round of the default
    random strategy returns exactly when the loaders can then be built
    (keyword arguments accepted, a positive batch size, and no dataset
    left empty, the unlabeled one included), and a round that returns has
    moved exactly that many indices. *)
Theorem label_budget_fixed rng labeled_ratio add_labeled_ratio
    base_targets test_targets r :
  get_dataset rng (Cifar10Dataset labeled_ratio add_labeled_ratio)
    base_targets test_targets = inr r →
  ∃ number,
    Num.int_of_float
      (PrimFloat.mul (Num.float_of_nat (length base_targets)) add_labeled_ratio)
      = inr number ∧
    add_labeled_num (split_class r) = Some number ∧
    ∀ (rng' : Rng.Generator) (L U : list Z),
      0 <= number <= Z.of_nat (length U) →
      (∃ S L' U',
         stratified_random_sampling rng' U (add_labeled_num (split_class r)) = inr S ∧
         Z.of_nat (length S) = number ∧ NoDup S ∧ valid_positions U S ∧
         postprocess_indices L U S = Some (L', U') ∧
         Z.of_nat (length L') = Z.of_nat (length L) + number ∧
         Z.of_nat (length U') + number = Z.of_nat (length U)) ∧
      ∀ (Model : Type)
        (us : Z → Args → Model → DataLoader → DataLoader → option Z → result (list Z))
        (ps : Z → Args → Model → DataLoader → option Z → result (list Z * list Z))
        (accepts_kwargs : Kwargs → result unit)
        args epoch model tl ul ld ud td kwargs ratio best,
        weak_supervision_strategy args ≠ "active_learning"%string →
        weak_supervision_strategy args ≠ "semi_supervised"%string →
        ((∃ round, perform_sampling us ps accepts_kwargs rng' args epoch model tl ul
                     (split_class r) L U ld ud td kwargs ratio best = inr round) ↔
         accepts_kwargs kwargs = inr () ∧ 0 < Z.of_nat (length L) + number ∧
         number < Z.of_nat (length U) ∧ indices td ≠ [] ∧ 0 < batch_size args) ∧
        ∀ round,
          perform_sampling us ps accepts_kwargs rng' args epoch model tl ul
            (split_class r) L U ld ud td kwargs ratio best = inr round →
          Z.of_nat (length (round_labeled_indices round))
            = Z.of_nat (length L) + number ∧
          Z.of_nat (length (round_unlabeled_indices round)) + number
            = Z.of_nat (length U).
Proof.
  intros Hr.
  destruct (get_dataset_inv _ _ _ _ _ Hr) as (number & _ & _ & Hb & _ & _ & _ & Hnum).
  cbn in Hb. exists number. split; [done|]. split; [done|].
  intros rng' L U Hrange. split.
  - rewrite Hnum.
    destruct (random_positions_move rng' L U number Hrange)
      as (S & HS & Hlen & Hnd & Hv & Hp & HL & HU).
    by exists S, (L ++ at_positions S U), (off_positions S U).
  - intros Model us ps accepts_kwargs args epoch model tl ul ld ud td kwargs ratio best
      Ha Hs.
    by apply random_round_moves.
Qed.

Lemma label_budget_fixed_witness :
  get_dataset Sample.rng (Cifar10Dataset 0.5 0.25) [3; 4; 5; 6; 0; 7; 1; 8] [9]
    = inr SampleSplit.r ∧
  add_labeled_num (split_class SampleSplit.r) = Some 2 ∧
  ∃ S round,
    stratified_random_sampling Sample.rng (split_unlabeled_indices SampleSplit.r)
      (add_labeled_num (split_class SampleSplit.r)) = inr S ∧
    Z.of_nat (length S) = 2 ∧
    SampleSplit.round = inr round ∧
    Z.of_nat (length (round_labeled_indices round))
      = Z.of_nat (length (split_labeled_indices SampleSplit.r)) + 2.
Proof.
  split; [reflexivity|]. split; [reflexivity|].
  destruct (label_budget_fixed Sample.rng 0.5 0.25 [3; 4; 5; 6; 0; 7; 1; 8] [9]
              SampleSplit.r eq_refl) as (number & Hb & Hnum & Hrounds).
  assert (number = 2) as -> by (vm_compute in Hnum; by injection Hnum).
  destruct (Hrounds Sample.rng (split_labeled_indices SampleSplit.r)
              (split_unlabeled_indices SampleSplit.r))
    as [(S & L' & U' & HS & Hlen & _) Hround]; [cbn; lia|].
  destruct (Hround unit (Sample.uncertainty []) (Sample.pseudo [] [])
              Sample.accepts_kwargs (Sample.args "random") 0 tt
              (Sample.loader (split_labeled_dataset SampleSplit.r))
              (Sample.loader (split_unlabeled_dataset SampleSplit.r))
              (split_labeled_dataset SampleSplit.r)
              (split_unlabeled_dataset SampleSplit.r)
              (split_test_dataset SampleSplit.r) Sample.kwargs 0.25%float tt)
    as [Hiff Hmoves]; [done|done|].
  destruct (proj2 Hiff) as [round Hr]; [repeat split; try done; cbn; lia|].
  exists S, round. split; [exact HS|]. split; [exact Hlen|]. split; [exact Hr|].
  exact (proj1 (Hmoves round Hr)).
Defined.

(** * Further properties of the code *)

(** ** [postprocess_indices] on arbitrary index arrays *)

(** The position an in-range index names: a negative one counts from the
    end. *)
Definition wrap_index (n : nat) (p : Z) : Z :=
  if bool_decide (p < 0) then p + Z.of_nat n else p.

Definition index_in_range (n : nat) (p : Z) : Prop :=
  - Z.of_nat n <= p < Z.of_nat n.

Lemma norm_index_in_range n p :
  index_in_range n p → norm_index n p = Some (Z.to_nat (wrap_index n p)).
Proof.
  unfold index_in_range, norm_index, wrap_index. intros H.
  repeat case_bool_decide; try done; lia.
Qed.

Lemma norm_index_out_of_range n p :
  ¬ index_in_range n p → norm_index n p = None.
Proof.
  unfold index_in_range, norm_index. intros H.
  repeat case_bool_decide; try done; lia.
Qed.

Lemma wrap_index_valid n p :
  index_in_range n p → 0 <= wrap_index n p < Z.of_nat n.
Proof. unfold index_in_range, wrap_index. case_bool_decide; lia. Qed.

Lemma setitems_wrap {A} (ps : list Z) (x : A) : ∀ a : list A,
  Forall (index_in_range (length a)) ps →
  setitems a ps x = setitems a (wrap_index (length a) <$> ps) x.
Proof.
  induction ps as [|p ps IH]; intros a Hr; [done|].
  apply Forall_cons in Hr as [Hp Hr]. csimpl. unfold setitem.
  rewrite (norm_index_in_range _ _ Hp).
  rewrite (norm_index_valid _ _ (wrap_index_valid _ _ Hp)). cbn.
  rewrite IH by (by rewrite length_insert). by rewrite length_insert.
Qed.

Lemma setitems_out_of_range {A} (ps : list Z) (x : A) : ∀ a : list A,
  ¬ Forall (index_in_range (length a)) ps → setitems a ps x = None.
Proof.
  induction ps as [|p ps IH]; intros a Hr; [by destruct Hr|]. cbn. unfold setitem.
  destruct (decide (index_in_range (length a) p)) as [Hp|Hp].
  - rewrite (norm_index_in_range _ _ Hp). cbn. apply IH.
    rewrite length_insert. intros Hps. apply Hr. by constructor.
  - by rewrite (norm_index_out_of_range _ _ Hp).
Qed.

(** What [postprocess_indices] returns on in-range positions, negative or
    repeated ones included. *)
Lemma postprocess_indices_in_range (L U S : list Z) :
  Forall (index_in_range (length U)) S →
  postprocess_indices L U S =
  Some (L ++ at_positions (wrap_index (length U) <$> S) U,
        off_positions (wrap_index (length U) <$> S) U).
Proof.
  intros Hr.
  assert (valid_positions U (wrap_index (length U) <$> S)) as Hv.
  { apply Forall_fmap. eapply Forall_impl; [exact Hr|]. intros p Hp.
    by apply wrap_index_valid. }
  rewrite <- (postprocess_indices_valid L U _ Hv). unfold postprocess_indices.
  rewrite (setitems_wrap S false (replicate (length U) true)); rewrite length_replicate;
    done.
Qed.

Lemma postprocess_indices_out_of_range (L U S : list Z) :
  ¬ Forall (index_in_range (length U)) S → postprocess_indices L U S = None.
Proof.
  intros Hr. unfold postprocess_indices.
  rewrite setitems_out_of_range; [done|]. by rewrite length_replicate.
Qed.

(** X1. [postprocess_indices] raises (IndexError) exactly when some sample
    index lies outside [-len(unlabeled_indices), len(unlabeled_indices)). *)
Theorem postprocess_indices_raises_iff (L U S : list Z) :
  postprocess_indices L U S = None ↔
  ∃ p, p ∈ S ∧ ¬ (- Z.of_nat (length U) <= p < Z.of_nat (length U)).
Proof.
  split.
  - intros Hnone. apply Exists_exists.
    destruct (decide (Forall (index_in_range (length U)) S)) as [Hr|Hr].
    + by rewrite (postprocess_indices_in_range L U S Hr) in Hnone.
    + by apply not_Forall_Exists in Hr; [|apply _].
  - intros (p & Hp & Hout). apply postprocess_indices_out_of_range.
    rewrite Forall_forall. intros Hall. by apply Hout, (Hall p).
Qed.

(** X2. Whenever [postprocess_indices] returns, with repeated or negative
    sample indices too, it only moves indices: the labeled array keeps its
    elements in front, what is appended comes from the unlabeled array,
    what is left is a subsequence of it, and labeled plus unlabeled hold
    the same multiset as before. *)
Theorem postprocess_indices_moves_only (L U S L' U' : list Z) :
  postprocess_indices L U S = Some (L', U') →
  (∃ added, L' = L ++ added ∧ added `sublist_of` U ∧ added ++ U' ≡ₚ U) ∧
  U' `sublist_of` U ∧
  L' ++ U' ≡ₚ L ++ U.
Proof.
  intros Hret.
  destruct (decide (Forall (index_in_range (length U)) S)) as [Hr|Hr];
    [|by rewrite (postprocess_indices_out_of_range L U S Hr) in Hret].
  rewrite (postprocess_indices_in_range L U S Hr) in Hret.
  injection Hret as <- <-.
  set (S' := wrap_index (length U) <$> S).
  assert (∀ (f : nat → bool) k (a : list Z), select_from f k a `sublist_of` a) as Hsub.
  { intros f k a. revert k. induction a as [|x a IH]; intros k; [done|]. cbn.
    destruct (f k); [by apply sublist_skip|by apply sublist_cons]. }
  split; [|split].
  - exists (at_positions S' U). split; [done|]. split; [apply Hsub|].
    apply positions_split_perm.
  - apply Hsub.
  - by rewrite <- (assoc_L (++)), positions_split_perm.
Qed.

Lemma postprocess_indices_moves_only_witness :
  postprocess_indices [10] [20; 21; 22; 23] [-1; 0; 3] = Some ([10; 20; 23], [21; 22]) ∧
  [10; 20; 23] ++ [21; 22] ≡ₚ [10] ++ [20; 21; 22; 23].
Proof.
  split; [reflexivity|].
  apply (postprocess_indices_moves_only [10] [20; 21; 22; 23] [-1; 0; 3]
           [10; 20; 23] [21; 22] eq_refl).
Defined.

Lemma at_positions_remove_dups {A} (S : list Z) (U : list A) :
  at_positions S U = at_positions (remove_dups S) U.
Proof.
  unfold at_positions. apply select_from_ext. intros i _.
  apply bool_decide_ext. by rewrite elem_of_remove_dups.
Qed.

(** X3. A negative sample index counts from the end of the unlabeled array
    and a repeated one counts once: on in-range indices
    [postprocess_indices] returns, and the labeled array grows by the number
    of distinct positions named, the unlabeled one shrinking by as many. *)
Theorem postprocess_indices_distinct_positions (L U S : list Z) :
  Forall (λ p, - Z.of_nat (length U) <= p < Z.of_nat (length U)) S →
  ∃ L' U',
    postprocess_indices L U S = Some (L', U') ∧
    postprocess_indices L U (wrap_index (length U) <$> S) = Some (L', U') ∧
    length L' =
      (length L + length (remove_dups (wrap_index (length U) <$> S)))%nat ∧
    (length U' + length (remove_dups (wrap_index (length U) <$> S)))%nat = length U.
Proof.
  intros Hr. set (S' := wrap_index (length U) <$> S).
  assert (valid_positions U S') as Hv.
  { apply Forall_fmap. eapply Forall_impl; [exact Hr|]. intros p Hp.
    by apply wrap_index_valid. }
  exists (L ++ at_positions S' U), (off_positions S' U).
  split; [by apply postprocess_indices_in_range|].
  split; [by apply postprocess_indices_valid|].
  assert (valid_positions U (remove_dups S')) as Hv'.
  { apply Forall_forall. intros p Hp.
    apply (proj1 (elem_of_remove_dups _ _)) in Hp.
    unfold valid_positions in Hv. rewrite Forall_forall in Hv. by apply Hv. }
  destruct (at_positions_getitems U (remove_dups S') (NoDup_remove_dups _) Hv')
    as (xs & _ & Hperm & Hlen).
  assert (length (at_positions S' U) = length (remove_dups S')) as Hat
    by (by rewrite at_positions_remove_dups, Hperm).
  pose proof (select_from_length_split
                (λ i, bool_decide (Z.of_nat i ∈ S')) U 0) as Hsplit.
  split; [by rewrite length_app, Hat|].
  unfold at_positions, off_positions in *. lia.
Qed.

Lemma postprocess_indices_distinct_positions_witness :
  ∃ L' U',
    postprocess_indices [10] [20; 21; 22; 23] [-1; 3; 0] = Some (L', U') ∧
    postprocess_indices [10] [20; 21; 22; 23] (wrap_index 4 <$> [-1; 3; 0])
      = Some (L', U') ∧
    length L' = S (length (remove_dups (wrap_index 4 <$> [-1; 3; 0]))) ∧
    Nat.add (length U') (length (remove_dups (wrap_index 4 <$> [-1; 3; 0]))) = 4%nat.
Proof.
  apply (postprocess_indices_distinct_positions [10] [20; 21; 22; 23] [-1; 3; 0]).
  repeat constructor; cbn; lia.
Defined.

(** ** The budget against the pool *)

Lemma choice_raises (rng : Rng.Generator) (n : nat) (k : Z) :
  ¬ (0 <= k <= Z.of_nat n) → Rng.choice rng n (Some k) = inl ValueError.
Proof.
  intros H. unfold Rng.choice. case_bool_decide; [done|].
  rewrite bool_decide_eq_true_2 by lia. done.
Qed.

(** X4. [stratified_random_sampling] returns exactly when the number asked
    for is between 0 and the length of the unlabeled array; otherwise it
    raises ValueError, whatever the generator draws. *)
Theorem stratified_random_sampling_raises_iff (rng : Rng.Generator)
    (U : list Z) (number : Z) :
  ((∃ S, stratified_random_sampling rng U (Some number) = inr S) ↔
   0 <= number <= Z.of_nat (length U)) ∧
  (stratified_random_sampling rng U (Some number) = inl ValueError ↔
   number < 0 ∨ Z.of_nat (length U) < number).
Proof.
  unfold stratified_random_sampling.
  destruct (decide (0 <= number <= Z.of_nat (length U))) as [Hin|Hout].
  - destruct (choice_spec rng (length U) number Hin) as (S & HS & _).
    rewrite HS. split; split; try done; [by eexists|lia].
  - rewrite (choice_raises rng (length U) number Hout). split; split; try done.
    + by intros [S ?].
    + intros _. lia.
Qed.

Section budget_rounds.
Context {Model : Type}.
Variable uncertainty_get_samples :
  Z → Args → Model → DataLoader → DataLoader → option Z → result (list Z).
Variable pseudo_get_samples :
  Z → Args → Model → DataLoader → option Z → result (list Z * list Z).

Variable accepts_kwargs : Kwargs → result unit.

Local Abbreviation perform :=
  (perform_sampling uncertainty_get_samples pseudo_get_samples accepts_kwargs).
Local Abbreviation sampled :=
  (sampled_positions uncertainty_get_samples pseudo_get_samples).

(** X5. Under the default random strategy a round raises ValueError, and
    returns nothing, as soon as the unlabeled pool holds fewer indices than
    the per-round budget (or the budget is negative). *)
Theorem perform_sampling_pool_exhausted
    rng args epoch model tl ul dc L U ld ud td kwargs ratio best number :
  weak_supervision_strategy args ≠ "active_learning"%string →
  weak_supervision_strategy args ≠ "semi_supervised"%string →
  add_labeled_num dc = Some number →
  number < 0 ∨ Z.of_nat (length U) < number →
  perform rng args epoch model tl ul dc L U ld ud td kwargs ratio best = inl ValueError.
Proof.
  intros Ha Hs Hnum Hout. unfold perform_sampling.
  rewrite (proj2 (String.eqb_neq _ _) Ha), (proj2 (String.eqb_neq _ _) Hs).
  rewrite Hnum. unfold stratified_random_sampling.
  rewrite choice_raises by lia. done.
Qed.

Lemma at_positions_nil {A} (U : list A) : at_positions [] U = [].
Proof.
  unfold at_positions. generalize 0%nat.
  induction U as [|x U IH]; intros k; [done|]. cbn [select_from].
  case_bool_decide as E; [by apply elem_of_nil in E|apply IH].
Qed.

Lemma off_positions_nil {A} (U : list A) : off_positions [] U = U.
Proof.
  unfold off_positions. generalize 0%nat.
  induction U as [|x U IH]; intros k; [done|]. cbn [select_from].
  case_bool_decide as E; [by apply elem_of_nil in E|]. cbn. by rewrite IH.
Qed.

(** X6. In every branch, a round whose strategy selects no sample changes
    nothing. It returns exactly when the loaders can be built on the index
    arrays given (keyword arguments accepted, a positive batch size, no
    dataset empty); the index arrays it returns are the ones given and the
    targets of both datasets are untouched. *)
Theorem perform_sampling_empty_selection
    rng args epoch model tl ul dc L U ld ud td kwargs ratio best :
  sampled rng args epoch model tl ul dc U best = inr [] →
  ((∃ r, perform rng args epoch model tl ul dc L U ld ud td kwargs ratio best = inr r) ↔
   loaders_ok accepts_kwargs args td L U kwargs) ∧
  ∀ r, perform rng args epoch model tl ul dc L U ld ud td kwargs ratio best = inr r →
    round_labeled_indices r = L ∧ round_unlabeled_indices r = U ∧
    targets (round_labeled_dataset r) = targets ld ∧
    targets (round_unlabeled_dataset r) = targets ud.
Proof.
  unfold sampled_positions, perform_sampling. intros Hs.
  assert (postprocess_indices L U [] = Some (L, U)) as Hpp.
  { rewrite (postprocess_indices_valid L U []) by constructor.
    by rewrite at_positions_nil, off_positions_nil, app_nil_r. }
  assert (∀ ld' printed, targets ld' = targets ld →
    ((∃ r, (x ← create_loaders accepts_kwargs args ld' ud td L U kwargs;
            let '(a, b, c, d, f) := x in
            mret {| round_train_loader := a; round_unlabeled_loader := b;
                    round_val_loader := c; round_labeled_indices := L;
                    round_unlabeled_indices := U; round_labeled_dataset := d;
                    round_unlabeled_dataset := f; round_printed := printed |})
           = inr r) ↔ loaders_ok accepts_kwargs args td L U kwargs) ∧
    ∀ r, (x ← create_loaders accepts_kwargs args ld' ud td L U kwargs;
          let '(a, b, c, d, f) := x in
          mret {| round_train_loader := a; round_unlabeled_loader := b;
                  round_val_loader := c; round_labeled_indices := L;
                  round_unlabeled_indices := U; round_labeled_dataset := d;
                  round_unlabeled_dataset := f; round_printed := printed |})
         = inr r →
      round_labeled_indices r = L ∧ round_unlabeled_indices r = U ∧
      targets (round_labeled_dataset r) = targets ld ∧
      targets (round_unlabeled_dataset r) = targets ud) as Hfinish.
  { intros ld' printed Hld.
    destruct (create_loaders accepts_kwargs args ld' ud td L U kwargs) as [e|x] eqn:Hx.
    - cbn. split; [|done]. split; [by intros [? ?]|]. intros Hok.
      pose proof (proj2 (create_loaders_inr accepts_kwargs args ld' ud td L U kwargs _)
                    (conj Hok eq_refl)) as Hx'.
      congruence.
    - apply create_loaders_inr in Hx as [Hok ->]. cbn. split.
      + split; [done|]. intros _. by eexists.
      + by intros r [= <-]. }
  destruct (String.eqb _ "active_learning").
  - rewrite Hs. cbn -[postprocess_indices create_loaders]. rewrite Hpp.
    cbn -[create_loaders]. by apply Hfinish.
  - destruct (String.eqb _ "semi_supervised").
    + destruct (pseudo_get_samples _ _ _ _ _) as [e|[S' T]]; [done|].
      cbn in Hs. injection Hs as ->. cbn -[postprocess_indices create_loaders].
      rewrite Hpp. cbn -[create_loaders]. by apply Hfinish.
    + rewrite Hs. cbn -[postprocess_indices create_loaders]. rewrite Hpp.
      cbn -[create_loaders]. by apply Hfinish.
Qed.

End budget_rounds.

Lemma perform_sampling_pool_exhausted_witness :
  Sample.round "random" [] [] 3 [0; 0; 0; 0] [0; 1] [2; 3] = inl ValueError.
Proof.
  apply perform_sampling_pool_exhausted with (number := 3);
    [done|done|reflexivity|cbn; lia].
Defined.

Lemma perform_sampling_empty_selection_witness :
  ∃ r, Sample.round "random" [] [] 0 [0; 0; 0; 0] [0; 1] [2; 3] = inr r ∧
    round_labeled_indices r = [0; 1] ∧ round_unlabeled_indices r = [2; 3] ∧
    targets (round_labeled_dataset r) = [0; 0; 0; 0] ∧
    targets (round_unlabeled_dataset r) = [0; 0; 0; 0].
Proof.
  destruct (perform_sampling_empty_selection (Sample.uncertainty []) (Sample.pseudo [] [])
           Sample.accepts_kwargs Sample.rng (Sample.args "random") 0 tt
           (Sample.loader (Sample.dataset [0; 0; 0; 0] [0; 1]))
           (Sample.loader (Sample.dataset [0; 0; 0; 0] [2; 3]))
           (Sample.dataset_class 0) [0; 1] [2; 3]
           (Sample.dataset [0; 0; 0; 0] [0; 1]) (Sample.dataset [0; 0; 0; 0] [2; 3])
           Sample.test_dataset Sample.kwargs 0.25%float tt) as [Hiff Hsame].
  - reflexivity.
  - destruct (proj2 Hiff) as [r Hr]; [by repeat split|].
    exists r. split; [exact Hr|]. exact (Hsame r Hr).
Defined.

(** ** What the semi-supervised branch writes and prints *)

(** The number of selected positions whose target already equals the
    predicted label. *)
Fixpoint matches (tgts js T : list Z) : nat :=
  match js, T with
  | j :: js', p :: T' =>
      (if bool_decide (getitem tgts j = Some p) then 1 else 0) + matches tgts js' T'
  | _, _ => 0
  end.

Lemma matches_ext (t1 t2 js : list Z) : ∀ T,
  (∀ j, j ∈ js → getitem t1 j = getitem t2 j) → matches t1 js T = matches t2 js T.
Proof.
  induction js as [|j js IH]; intros [|p T] H; try done. cbn [matches].
  rewrite (H j) by (by left). rewrite (IH T); [done|].
  intros j' Hj'. apply H. by right.
Qed.

Lemma count_ones_replicate n : count_ones (replicate n 0) = 0%nat.
Proof.
  unfold count_ones. induction n as [|n IH]; [done|]. cbn [replicate].
  by rewrite filter_cons_False.
Qed.

Lemma count_ones_insert (acc : list Z) : ∀ i,
  acc !! i = Some 0 → count_ones (<[i:=1]> acc) = S (count_ones acc).
Proof.
  unfold count_ones. induction acc as [|a acc IH]; intros [|i] H; try done.
  - injection H as ->. cbn [insert list_insert].
    rewrite filter_cons_True by done. by rewrite filter_cons_False.
  - cbn [insert list_insert]. cbn in H. specialize (IH i H).
    destruct (decide (a = 1)).
    + rewrite !filter_cons_True by done. cbn [length]. f_equal. exact IH.
    + rewrite !filter_cons_False by done. exact IH.
Qed.

Lemma getitem_insert_ne (tgts : list Z) (j j' p : Z) :
  0 <= j → 0 <= j' < Z.of_nat (length tgts) → j' ≠ j →
  getitem (<[Z.to_nat j:=p]> tgts) j' = getitem tgts j'.
Proof.
  intros Hj Hj' Hne. unfold getitem. rewrite length_insert.
  rewrite norm_index_valid by done. cbn. apply list_lookup_insert_ne. lia.
Qed.

(** The accuracy vector of the loop counts the selected positions whose
    target needed no change. *)
Lemma pseudo_label_loop_count (js : list Z) : ∀ (tgts acc : list Z) (i : nat) (T : list Z),
  NoDup js → valid_positions tgts js →
  (i + length js <= length T)%nat → (i + length js <= length acc)%nat →
  (∀ q, (i <= q < length acc)%nat → acc !! q = Some 0) →
  ∃ tgts' acc', pseudo_label_loop tgts acc i js T = inr (tgts', acc') ∧
    count_ones acc' = (count_ones acc + matches tgts js (drop i T))%nat.
Proof.
  induction js as [|j js IH]; intros tgts acc i T Hnd Hv HT Hacc Hz.
  - exists tgts, acc. split; [done|]. cbn. lia.
  - apply NoDup_cons in Hnd as [Hj Hnd]. apply Forall_cons in Hv as [Hjv Hv].
    cbn [length] in HT, Hacc. cbn [pseudo_label_loop].
    destruct (getitem_valid tgts j Hjv) as (t & Hg & Ht). rewrite Hg.
    rewrite getitem_nat by lia.
    destruct (lookup_lt_is_Some_2 T i ltac:(lia)) as [p Hp]. rewrite Hp. cbn.
    rewrite (drop_S T p i Hp). cbn [matches]. rewrite Hg.
    unfold setitem. case_bool_decide as Htp.
    + rewrite norm_index_valid by lia. cbn. rewrite Nat2Z.id.
      destruct (IH tgts (<[i:=1]> acc) (S i) T Hnd Hv)
        as (tgts' & acc' & -> & Hc); [lia|rewrite length_insert; lia| |].
      { intros q Hq. rewrite length_insert in Hq.
        rewrite list_lookup_insert_ne by lia. apply Hz. lia. }
      exists tgts', acc'. split; [done|]. rewrite Hc.
      rewrite count_ones_insert by (apply Hz; lia).
      rewrite bool_decide_eq_true_2 by (by subst). lia.
    + rewrite norm_index_valid by lia. cbn.
      destruct (IH (<[Z.to_nat j:=p]> tgts) acc (S i) T Hnd)
        as (tgts' & acc' & -> & Hc); [|lia|lia| |].
      { unfold valid_positions in *. by rewrite length_insert. }
      { intros q Hq. apply Hz. lia. }
      exists tgts', acc'. split; [done|]. rewrite Hc.
      rewrite bool_decide_eq_false_2 by congruence.
      rewrite (matches_ext (<[Z.to_nat j:=p]> tgts) tgts js); [lia|].
      intros j' Hj'. apply getitem_insert_ne; [lia| |by intros ->].
      unfold valid_positions in Hv. rewrite Forall_forall in Hv. by apply Hv.
Qed.

Section semi_supervised_round.
Context {Model : Type}.
Variable uncertainty_get_samples :
  Z → Args → Model → DataLoader → DataLoader → option Z → result (list Z).
Variable pseudo_get_samples :
  Z → Args → Model → DataLoader → option Z → result (list Z * list Z).

Variable accepts_kwargs : Kwargs → result unit.

Local Abbreviation perform :=
  (perform_sampling uncertainty_get_samples pseudo_get_samples accepts_kwargs).

(** X7. The semi-supervised branch, as the code runs it. When the pseudo
    labeler returns pairwise-distinct integers [S], each a valid position
    into the unlabeled index array and into [labeled_dataset.targets], with
    at least as many predicted labels [T]: the round returns exactly when
    the loaders can be built on the new index arrays (keyword arguments
    accepted, a positive batch size, no dataset left empty); after a round
    that returns, [labeled_dataset.targets[S[k]] = T[k]] for every [k] and
    every other target is as before; the targets of the unlabeled dataset
    are untouched; and the accuracy printed is the number of [k] whose
    target [targets[S[k]]] already was [T[k]], divided by [len(S)]. *)
Theorem perform_sampling_semi_supervised
    rng args epoch model tl ul dc L U ld ud td kwargs ratio best S T :
  weak_supervision_strategy args = "semi_supervised"%string →
  pseudo_get_samples epoch args best ul (add_labeled_num dc) = inr (S, T) →
  NoDup S → valid_positions U S → valid_positions (targets ld) S →
  (length S <= length T)%nat →
  ((∃ r, perform rng args epoch model tl ul dc L U ld ud td kwargs ratio best = inr r) ↔
   loaders_ok accepts_kwargs args td (L ++ at_positions S U) (off_positions S U) kwargs) ∧
  ∀ r, perform rng args epoch model tl ul dc L U ld ud td kwargs ratio best = inr r →
    (∀ k j, S !! k = Some j →
       getitem (targets (round_labeled_dataset r)) j = T !! k) ∧
    (∀ q, Z.of_nat q ∉ S →
       targets (round_labeled_dataset r) !! q = targets ld !! q) ∧
    targets (round_unlabeled_dataset r) = targets ud ∧
    round_printed r =
      PseudoLabeling (PrimFloat.add ratio (add_labeled_ratio args))
        (PrimFloat.div (Num.float_of_nat (matches (targets ld) S T))
                       (Num.float_of_nat (length S))).
Proof.
  intros Hstrat Hps Hnd HvU Hvt HT. unfold perform_sampling.
  rewrite Hstrat. cbn [String.eqb Ascii.eqb Bool.eqb]. rewrite Hps.
  cbn -[postprocess_indices pseudo_label_loop create_loaders].
  rewrite (postprocess_indices_valid L U S HvU).
  cbn -[pseudo_label_loop create_loaders].
  destruct (pseudo_label_loop_spec S (targets ld) (replicate (length S) 0) 0 T
              Hnd Hvt) as (tgts' & acc' & Hloop & Hlen & Hw & Ho);
    [lia|rewrite length_replicate; lia|].
  destruct (pseudo_label_loop_count S (targets ld) (replicate (length S) 0) 0 T
              Hnd Hvt) as (tgts2 & acc2 & Hloop2 & Hc);
    [lia|rewrite length_replicate; lia| |].
  { intros q Hq. rewrite length_replicate in Hq. apply lookup_replicate_2. lia. }
  rewrite Hloop in Hloop2. injection Hloop2 as <- <-.
  rewrite Hloop. cbn -[create_loaders].
  destruct (create_loaders accepts_kwargs args _ ud td (L ++ at_positions S U)
              (off_positions S U) kwargs) as [e|x] eqn:Hx.
  - cbn. split; [|done]. split; [by intros [? ?]|]. intros Hok.
    pose proof (proj2 (create_loaders_inr accepts_kwargs args
                  {| targets := tgts'; indices := indices ld |} ud td
                  (L ++ at_positions S U) (off_positions S U) kwargs _)
                  (conj Hok eq_refl)) as Hx'.
    congruence.
  - apply create_loaders_inr in Hx as [Hok ->]. cbn.
    split; [split; [done|]; intros _; by eexists|].
    intros r [= <-]. cbn.
    rewrite Hc, count_ones_replicate, drop_0. cbn.
    split; [|by split].
    intros k j Hk. specialize (Hw k j Hk). cbn in Hw. rewrite <- Hw.
    assert (0 <= j < Z.of_nat (length (targets ld))) as Hj.
    { unfold valid_positions in Hvt. rewrite Forall_forall in Hvt.
      apply Hvt. by eapply list_elem_of_lookup_2. }
    unfold getitem. rewrite norm_index_valid by lia. done.
Qed.

End semi_supervised_round.

Lemma perform_sampling_semi_supervised_witness :
  ∃ r, Sample.round "semi_supervised" [1; 0] [9; 5] 2 [5; 1; 2; 3] [7] [5; 6; 8] = inr r ∧
    targets (round_labeled_dataset r) = [5; 9; 2; 3] ∧
    round_printed r = PseudoLabeling 0.5%float 0.5%float.
Proof.
  destruct (perform_sampling_semi_supervised (Sample.uncertainty [1; 0])
              (Sample.pseudo [1; 0] [9; 5]) Sample.accepts_kwargs Sample.rng
              (Sample.args "semi_supervised")
              0 tt (Sample.loader (Sample.dataset [5; 1; 2; 3] [7]))
              (Sample.loader (Sample.dataset [5; 1; 2; 3] [5; 6; 8]))
              (Sample.dataset_class 2) [7] [5; 6; 8]
              (Sample.dataset [5; 1; 2; 3] [7]) (Sample.dataset [5; 1; 2; 3] [5; 6; 8])
              Sample.test_dataset Sample.kwargs 0.25%float tt [1; 0] [9; 5])
    as (Hiff & Hround).
  - reflexivity.
  - reflexivity.
  - compute_done.
  - repeat constructor; cbn; lia.
  - repeat constructor; cbn; lia.
  - cbn; lia.
  - destruct (proj2 Hiff) as [r Hr]; [by repeat split|].
    destruct (Hround r Hr) as (_ & _ & _ & Hprinted).
    exists r. split; [exact Hr|]. split; [|exact Hprinted].
    unfold Sample.round in Hr. vm_compute in Hr. by injection Hr as <-.
Defined.

(** The loop runs out of predicted labels. *)
Lemma pseudo_label_loop_short (js : list Z) : ∀ (tgts acc : list Z) (i : nat) (T : list Z),
  valid_positions tgts js →
  (i <= length T < i + length js)%nat → (i + length js <= length acc)%nat →
  pseudo_label_loop tgts acc i js T = inl IndexError.
Proof.
  induction js as [|j js IH]; intros tgts acc i T Hv HT Hacc; [cbn in HT; lia|].
  apply Forall_cons in Hv as [Hjv Hv]. cbn [length] in HT, Hacc.
  cbn [pseudo_label_loop].
  destruct (getitem_valid tgts j Hjv) as (t & -> & _). cbn.
  destruct (decide (i = length T)) as [->|Hne].
  - unfold getitem at 1. rewrite norm_index_out_of_range; [done|].
    unfold index_in_range. lia.
  - rewrite getitem_nat by lia.
    destruct (lookup_lt_is_Some_2 T i ltac:(lia)) as [p ->]. cbn.
    unfold setitem. case_bool_decide.
    + rewrite norm_index_valid by lia. cbn. apply IH; [done|lia|].
      rewrite length_insert. lia.
    + rewrite norm_index_valid by lia. cbn. apply IH; [|lia|lia].
      unfold valid_positions in *. by rewrite length_insert.
Qed.

Section round_state.
Context {Model : Type}.
Variable uncertainty_get_samples :
  Z → Args → Model → DataLoader → DataLoader → option Z → result (list Z).
Variable pseudo_get_samples :
  Z → Args → Model → DataLoader → option Z → result (list Z * list Z).

Variable accepts_kwargs : Kwargs → result unit.

Local Abbreviation perform :=
  (perform_sampling uncertainty_get_samples pseudo_get_samples accepts_kwargs).

(** X8. In the semi-supervised branch, a pseudo labeler that returns fewer
    predicted labels than selected positions makes the round raise
    IndexError (at [samples_targets[i]]); nothing is returned. *)
Theorem perform_sampling_too_few_labels
    rng args epoch model tl ul dc L U ld ud td kwargs ratio best S T :
  weak_supervision_strategy args = "semi_supervised"%string →
  pseudo_get_samples epoch args best ul (add_labeled_num dc) = inr (S, T) →
  valid_positions U S → valid_positions (targets ld) S →
  (length T < length S)%nat →
  perform rng args epoch model tl ul dc L U ld ud td kwargs ratio best = inl IndexError.
Proof.
  intros Hstrat Hps HvU Hvt HT. unfold perform_sampling.
  rewrite Hstrat. cbn [String.eqb Ascii.eqb Bool.eqb]. rewrite Hps.
  cbn -[postprocess_indices pseudo_label_loop].
  rewrite (postprocess_indices_valid L U S HvU).
  cbn -[pseudo_label_loop].
  rewrite pseudo_label_loop_short; [done|done|lia|].
  rewrite length_replicate. lia.
Qed.

(** X9. Whatever the branch, a round that returns leaves the state
    consistent: the labeled and unlabeled datasets serve exactly the index
    arrays returned, the train and unlabeled loaders wrap those two
    datasets and the validation loader the test dataset, all with
    [args.batch_size]; the unlabeled dataset's targets are never written,
    and outside the semi-supervised branch neither are the labeled
    dataset's. *)
Theorem perform_sampling_state
    rng args epoch model tl ul dc L U ld ud td kwargs ratio best r :
  perform rng args epoch model tl ul dc L U ld ud td kwargs ratio best = inr r →
  indices (round_labeled_dataset r) = round_labeled_indices r ∧
  indices (round_unlabeled_dataset r) = round_unlabeled_indices r ∧
  loader_dataset (round_train_loader r) = round_labeled_dataset r ∧
  loader_dataset (round_unlabeled_loader r) = round_unlabeled_dataset r ∧
  loader_dataset (round_val_loader r) = td ∧
  loader_batch_size (round_train_loader r) = batch_size args ∧
  loader_batch_size (round_unlabeled_loader r) = batch_size args ∧
  loader_batch_size (round_val_loader r) = batch_size args ∧
  targets (round_unlabeled_dataset r) = targets ud ∧
  (weak_supervision_strategy args ≠ "semi_supervised"%string →
   targets (round_labeled_dataset r) = targets ld).
Proof.
  unfold perform_sampling.
  destruct (String.eqb _ "active_learning") eqn:Ha.
  - destruct (uncertainty_get_samples _ _ _ _ _ _) as [e|S]; [done|].
    cbn -[postprocess_indices create_loaders].
    destruct (postprocess_indices L U S) as [[L' U']|]; [|done].
    cbn -[create_loaders].
    destruct (create_loaders _ _ _ _ _ _ _ _) as [e|x] eqn:Hx; [done|].
    apply create_loaders_inr in Hx as [_ ->]. cbn.
    intros [= <-]. by repeat split.
  - destruct (String.eqb_spec (weak_supervision_strategy args) "semi_supervised")
      as [Hs|Hs].
    + destruct (pseudo_get_samples _ _ _ _ _) as [e|[S T]]; [done|].
      cbn -[postprocess_indices pseudo_label_loop create_loaders].
      destruct (postprocess_indices L U S) as [[L' U']|]; [|done].
      cbn -[pseudo_label_loop create_loaders].
      destruct (pseudo_label_loop _ _ _ _ _) as [e|[tgts acc]]; [done|].
      cbn -[create_loaders].
      destruct (create_loaders _ _ _ _ _ _ _ _) as [e|x] eqn:Hx; [done|].
      apply create_loaders_inr in Hx as [_ ->]. cbn.
      intros [= <-]. by repeat split.
    + destruct (stratified_random_sampling _ _ _) as [e|S]; [done|].
      cbn -[postprocess_indices create_loaders].
      destruct (postprocess_indices L U S) as [[L' U']|]; [|done].
      cbn -[create_loaders].
      destruct (create_loaders _ _ _ _ _ _ _ _) as [e|x] eqn:Hx; [done|].
      apply create_loaders_inr in Hx as [_ ->]. cbn.
      intros [= <-]. by repeat split.
Qed.

End round_state.

Lemma perform_sampling_too_few_labels_witness :
  Sample.round "semi_supervised" [1; 0] [9] 2 [5; 1; 2; 3] [7] [5; 6; 8]
  = inl IndexError.
Proof.
  apply (perform_sampling_too_few_labels (Sample.uncertainty [1; 0])
           (Sample.pseudo [1; 0] [9]) Sample.accepts_kwargs Sample.rng
           (Sample.args "semi_supervised")
           0 tt (Sample.loader (Sample.dataset [5; 1; 2; 3] [7]))
           (Sample.loader (Sample.dataset [5; 1; 2; 3] [5; 6; 8]))
           (Sample.dataset_class 2) [7] [5; 6; 8]
           (Sample.dataset [5; 1; 2; 3] [7]) (Sample.dataset [5; 1; 2; 3] [5; 6; 8])
           Sample.test_dataset Sample.kwargs 0.25%float tt [1; 0] [9]).
  - reflexivity.
  - reflexivity.
  - repeat constructor; cbn; lia.
  - repeat constructor; cbn; lia.
  - cbn; lia.
Defined.

Lemma perform_sampling_state_witness :
  ∃ r, Sample.round "random" [] [] 1 [5; 1; 2; 3] [0] [1; 2; 3] = inr r ∧
    indices (round_labeled_dataset r) = round_labeled_indices r ∧
    targets (round_labeled_dataset r) = [5; 1; 2; 3].
Proof.
  eexists. split; [reflexivity|].
  edestruct (perform_sampling_state (Sample.uncertainty []) (Sample.pseudo [] [])
               Sample.accepts_kwargs Sample.rng (Sample.args "random") 0 tt
               (Sample.loader (Sample.dataset [5; 1; 2; 3] [0]))
               (Sample.loader (Sample.dataset [5; 1; 2; 3] [1; 2; 3]))
               (Sample.dataset_class 1) [0] [1; 2; 3]
               (Sample.dataset [5; 1; 2; 3] [0]) (Sample.dataset [5; 1; 2; 3] [1; 2; 3])
               Sample.test_dataset Sample.kwargs 0.25%float tt)
    as (Hi & _ & _ & _ & _ & _ & _ & _ & _ & Ht); [reflexivity|].
  split; [exact Hi|]. by apply Ht.
Defined.

(** ** [NTXent.forward] on a batch of the wrong size *)

Lemma length_diagonals {A} (m B : nat) (sim : list (list A)) :
  NTXentFacts.square m sim →
  length (NTXent.diag_above sim B ++ NTXent.diag_below sim B) = (2 * (m - B))%nat.
Proof.
  intros Hsq. unfold NTXent.diag_above, NTXent.diag_below.
  destruct Hsq as [Hl Hr]. rewrite Hl.
  assert (∀ f : nat → option A,
            (∀ i, (i < m - B)%nat → is_Some (f i)) →
            length (omap f (seq 0 (m - B))) = (m - B)%nat) as Hlen.
  { intros f Hf.
    assert (Forall2 (λ x y, f x = Some y) (seq 0 (m - B)) (omap f (seq 0 (m - B))))
      as H2.
    { apply NTXentFacts.omap_total, Forall_forall. intros i Hi%elem_of_seq.
      apply Hf. lia. }
    apply Forall2_length in H2. by rewrite length_seq in H2. }
  rewrite length_app, !Hlen; [lia| |].
  - intros i Hi. apply (NTXentFacts.entry_square m); [done|lia..].
  - intros i Hi. apply (NTXentFacts.entry_square m); [done|lia..].
Qed.

(** X10. [forward] needs [2 * batch_size] embeddings in its two batches
    together: on any other number (a last, incomplete batch) the reshape
    of the positives fails and [forward] raises a framework error instead
    of returning a loss. *)
Theorem forward_wrong_batch_size
    (cosine_similarity : list float → list float → float)
    (criterion : list (list float) → list Z → float)
    (B : nat) (temperature : float) (mask : list (list bool))
    (z_i z_j : list (list float)) :
  (1 <= B)%nat → (length z_i + length z_j ≠ 2 * B)%nat →
  ∃ msg, NTXent.forward cosine_similarity criterion B temperature mask z_i z_j
         = inl (FrameworkError msg).
Proof.
  intros HB Hne. unfold NTXent.forward.
  set (sim := (λ u, _ <$> (z_i ++ z_j)) <$> (z_i ++ z_j)).
  assert (NTXentFacts.square (length z_i + length z_j) sim) as Hsq.
  { split; [unfold sim; by rewrite length_fmap, length_app|].
    apply Forall_fmap, Forall_forall. intros u _. cbn.
    by rewrite length_fmap, length_app. }
  unfold NTXent.logits_of_sim, NTXent.reshape_column.
  rewrite bool_decide_eq_false_2; [by eexists|].
  rewrite (length_diagonals _ B sim Hsq). lia.
Qed.

Lemma forward_wrong_batch_size_witness :
  ∃ msg, NTXent.forward (λ _ _, 1%float) (λ _ _, 0%float) 2 0.5%float
           [[false; true; false; true]; [true; false; true; false];
            [false; true; false; true]; [true; false; true; false]]
           [[1%float]; [2%float]] [[3%float]]
         = inl (FrameworkError msg).
Proof.
  apply forward_wrong_batch_size; cbn; lia.
Defined.

(** ** Checkpoints: [save_checkpoint] and [resume_model] on a file system *)

From stdpp Require Import gmap.

Local Open Scope Z_scope.

(** The files and the directories of the file system, each under the key
    its path resolves to. A checkpoint file holds the dictionary saved:
    its ['epoch'] and its ['state_dict']. *)
Record FileSystem (StateDict : Type) := {
  fs_dirs : gset string;
  fs_files : gmap string (Z * StateDict);
}.
Arguments fs_dirs {_}.
Arguments fs_files {_}.

Section checkpoints.
Context {Model StateDict : Type}.
Variable load_state_dict : Model → StateDict → result Model.

(** What the operating system makes of a path: two paths name the same
    file exactly when they resolve to the same key (['./a'] and ['a'], a
    link and its target). *)
Variable resolve : string → string.

Implicit Types fs : FileSystem StateDict.

(** [os.path.exists]. *)
Definition path_exists fs (p : string) : bool :=
  bool_decide (resolve p ∈ fs_dirs fs ∨ is_Some (fs_files fs !! resolve p)).

(** [os.makedirs]. *)
Definition makedirs fs (p : string) : result (FileSystem StateDict) :=
  if path_exists fs p then raise (FrameworkError "FileExistsError")
  else mret {| fs_dirs := {[resolve p]} ∪ fs_dirs fs; fs_files := fs_files fs |}.

(** [torch.save(state, filename)]. *)
Definition torch_save fs (state : Z * StateDict) (p : string) : FileSystem StateDict :=
  {| fs_dirs := fs_dirs fs; fs_files := <[resolve p:=state]> (fs_files fs) |}.

(** [shutil.copyfile(src, dst)]: it refuses to copy a file onto itself. *)
Definition copyfile fs (src dst : string) : result (FileSystem StateDict) :=
  if String.eqb (resolve src) (resolve dst) then raise (FrameworkError "SameFileError")
  else match fs_files fs !! resolve src with
       | Some c =>
           mret {| fs_dirs := fs_dirs fs;
                   fs_files := <[resolve dst:=c]> (fs_files fs) |}
       | None => raise (FrameworkError "FileNotFoundError")
       end.

(** [os.path.isfile] and [torch.load] on this file system. *)
Definition fs_isfile fs (p : string) : bool :=
  bool_decide (is_Some (fs_files fs !! resolve p)).

Definition fs_load fs (p : string) : result (Z * StateDict) :=
  match fs_files fs !! resolve p with
  | Some c => mret c
  | None => raise (FrameworkError "FileNotFoundError")
  end.

Definition save_checkpoint (args : Args) (state : Z * StateDict) (is_best : bool)
    (filename best_model_filename : string) fs : result (FileSystem StateDict) :=
  let directory := Path.join2 (checkpoint_path args) (name args) in
  fs ← (if negb (path_exists fs directory) then makedirs fs directory else mret fs);
  let filename := Path.join2 directory filename in
  let fs := torch_save fs state filename in
  if is_best then copyfile fs filename (Path.join2 directory best_model_filename)
  else mret fs.

(** [args] after [args.start_epoch = epoch]. *)
Definition with_start_epoch (args : Args) (epoch : Z) : Args :=
  {| arch := arch args; layers := layers args; widen_factor := widen_factor args;
     drop_rate := drop_rate args; checkpoint_path := checkpoint_path args;
     name := name args; resume := resume args; start_epoch := epoch;
     weak_supervision_strategy := weak_supervision_strategy args;
     add_labeled_ratio := add_labeled_ratio args;
     batch_size := batch_size args |}.

Lemma makedirs_files fs fs' p :
  (if negb (path_exists fs p) then makedirs fs p else mret fs) = inr fs' →
  fs_files fs' = fs_files fs.
Proof.
  unfold makedirs. destruct (path_exists fs p); cbn; by intros [= <-].
Qed.

Lemma makedirs_returns fs p :
  ∃ fs', (if negb (path_exists fs p) then makedirs fs p else mret fs) = inr fs'.
Proof. unfold makedirs. destruct (path_exists fs p); cbn; by eexists. Qed.

(** What [save_checkpoint] leaves on disk. *)
Lemma save_checkpoint_files args state is_best filename best fs fs' :
  save_checkpoint args state is_best filename best fs = inr fs' →
  let directory := Path.join2 (checkpoint_path args) (name args) in
  fs_files fs' =
    if is_best then
      <[resolve (Path.join2 directory best):=state]>
        (<[resolve (Path.join2 directory filename):=state]> (fs_files fs))
    else <[resolve (Path.join2 directory filename):=state]> (fs_files fs).
Proof.
  unfold save_checkpoint.
  destruct (if negb _ then _ else _) as [e|fs1] eqn:Hmk; [done|]. cbn.
  apply makedirs_files in Hmk. destruct is_best.
  - unfold copyfile, torch_save. cbn. destruct (String.eqb _ _); [done|].
    rewrite lookup_insert_eq. cbn. intros [= <-]. cbn. by rewrite Hmk.
  - intros [= <-]. cbn. by rewrite Hmk.
Qed.

(** X12. Round trip: a checkpoint saved with [is_best] under two
    different file names is the one [resume_model] loads afterwards, with
    the same [args]: the model is given the saved ['state_dict'] and
    [args.start_epoch] becomes the saved ['epoch']. *)
Theorem save_then_resume (args : Args) (model : Model) (epoch : Z) (sd : StateDict)
    (filename : string) fs fs' :
  save_checkpoint args (epoch, sd) true filename "model_best.pth.tar" fs = inr fs' →
  resume_model (fs_isfile fs') (fs_load fs') load_state_dict args model =
  (model' ← load_state_dict model sd;
   mret (model', with_start_epoch args epoch,
         Loaded (Path.join (checkpoint_path args) (name args) "model_best.pth.tar")
                (resume args) epoch)).
Proof.
  intros Hsave. apply save_checkpoint_files in Hsave. cbn in Hsave.
  unfold resume_model, fs_isfile, fs_load, Path.join. rewrite Hsave.
  rewrite lookup_insert_eq. by rewrite bool_decide_eq_true_2 by eauto.
Qed.

(** X13. Saving without [is_best] never touches the best-model file: when
    the checkpoint file and the best-model file are two files (their
    paths do not resolve to the same one), whatever [resume_model] does
    before the save it does after it. When they are one file, the save
    overwrites it and [resume_model] loads what was saved. *)
Theorem save_not_best_keeps_resume (args : Args) (model : Model)
    (state : Z * StateDict) (filename : string) fs fs' :
  save_checkpoint args state false filename "model_best.pth.tar" fs = inr fs' →
  (resolve (Path.join2 (Path.join2 (checkpoint_path args) (name args)) filename) ≠
   resolve (Path.join (checkpoint_path args) (name args) "model_best.pth.tar") →
   resume_model (fs_isfile fs') (fs_load fs') load_state_dict args model =
   resume_model (fs_isfile fs) (fs_load fs) load_state_dict args model) ∧
  (resolve (Path.join2 (Path.join2 (checkpoint_path args) (name args)) filename) =
   resolve (Path.join (checkpoint_path args) (name args) "model_best.pth.tar") →
   resume_model (fs_isfile fs') (fs_load fs') load_state_dict args model =
   (model' ← load_state_dict model state.2;
    mret (model', with_start_epoch args state.1,
          Loaded (Path.join (checkpoint_path args) (name args) "model_best.pth.tar")
                 (resume args) state.1))).
Proof.
  intros Hsave. apply save_checkpoint_files in Hsave. cbn in Hsave. split.
  - intros Hne. unfold resume_model, fs_isfile, fs_load. rewrite Hsave.
    by rewrite lookup_insert_ne.
  - intros Heq. unfold resume_model, fs_isfile, fs_load. rewrite Hsave, Heq.
    rewrite lookup_insert_eq. rewrite bool_decide_eq_true_2 by eauto.
    by destruct state.
Qed.

End checkpoints.

Module SampleDisk.

Definition empty : FileSystem string := {| fs_dirs := ∅; fs_files := ∅ |}.

Definition load_state_dict : string → string → result string := λ _ sd, inr sd.

(** A file system on which a leading ['./'] of a file name in the
    checkpoint directory names the same file. *)
Definition resolve (p : string) : string :=
  if String.eqb p "runs/cifar10@resnet/./model_best.pth.tar"
  then "runs/cifar10@resnet/model_best.pth.tar"%string else p.

Definition saved (is_best : bool) (filename : string) : result (FileSystem string) :=
  save_checkpoint resolve (Sample.args "random") (7, "weights"%string) is_best
    filename "model_best.pth.tar" empty.

End SampleDisk.

Lemma save_then_resume_witness :
  ∃ fs', SampleDisk.saved true "checkpoint.pth.tar" = inr fs' ∧
    resume_model (fs_isfile SampleDisk.resolve fs') (fs_load SampleDisk.resolve fs')
      SampleDisk.load_state_dict (Sample.args "random") "model"%string
    = inr ("weights"%string, with_start_epoch (Sample.args "random") 7,
           Loaded "runs/cifar10@resnet/model_best.pth.tar" "" 7).
Proof.
  destruct (SampleDisk.saved true "checkpoint.pth.tar") as [e|fs'] eqn:Hs;
    [by vm_compute in Hs|].
  exists fs'. split; [done|].
  by rewrite (save_then_resume SampleDisk.load_state_dict SampleDisk.resolve
                (Sample.args "random")
                "model"%string 7 "weights"%string "checkpoint.pth.tar"
                SampleDisk.empty fs' Hs).
Defined.

Lemma save_not_best_keeps_resume_witness :
  (∃ fs', SampleDisk.saved false "checkpoint.pth.tar" = inr fs' ∧
     resume_model (fs_isfile SampleDisk.resolve fs') (fs_load SampleDisk.resolve fs')
       SampleDisk.load_state_dict (Sample.args "random") "model"%string
     = inr ("model"%string, Sample.args "random",
            NoCheckpoint "runs/cifar10@resnet/model_best.pth.tar")) ∧
  (∃ fs', SampleDisk.saved false "./model_best.pth.tar" = inr fs' ∧
     resume_model (fs_isfile SampleDisk.resolve fs') (fs_load SampleDisk.resolve fs')
       SampleDisk.load_state_dict (Sample.args "random") "model"%string
     = inr ("weights"%string, with_start_epoch (Sample.args "random") 7,
            Loaded "runs/cifar10@resnet/model_best.pth.tar" "" 7)).
Proof.
  split.
  - destruct (SampleDisk.saved false "checkpoint.pth.tar") as [e|fs'] eqn:Hs;
      [by vm_compute in Hs|].
    exists fs'. split; [done|].
    rewrite (proj1 (save_not_best_keeps_resume SampleDisk.load_state_dict
               SampleDisk.resolve (Sample.args "random") "model"%string
               (7, "weights"%string) "checkpoint.pth.tar" SampleDisk.empty fs' Hs));
      done.
  - destruct (SampleDisk.saved false "./model_best.pth.tar") as [e|fs'] eqn:Hs;
      [by vm_compute in Hs|].
    exists fs'. split; [done|].
    rewrite (proj2 (save_not_best_keeps_resume SampleDisk.load_state_dict
               SampleDisk.resolve (Sample.args "random") "model"%string
               (7, "weights"%string) "./model_best.pth.tar" SampleDisk.empty fs' Hs));
      done.
Defined.

(** ** What [get_dataset] leaves out, and when it refuses *)

(** X14. Every index of the base dataset ends up labeled, unlabeled, or
    dropped because its class is one of [remove_classes = {0, 1, 2}]; so
    when no sample has such a class, the labeled and unlabeled arrays
    together hold every index exactly once. *)
Theorem get_dataset_coverage rng labeled_ratio add_labeled_ratio
    base_targets test_targets r :
  get_dataset rng (Cifar10Dataset labeled_ratio add_labeled_ratio)
    base_targets test_targets = inr r →
  (∀ x, 0 <= x < Z.of_nat (length base_targets) →
     x ∈ split_labeled_indices r ∨ x ∈ split_unlabeled_indices r ∨
     ∃ t, getitem base_targets x = Some t ∧ t ∈ [0; 1; 2]) ∧
  (Forall (λ t, t ∉ [0; 1; 2]) base_targets →
   split_labeled_indices r ++ split_unlabeled_indices r
     ≡ₚ seqZ 0 (Z.of_nat (length base_targets))).
Proof.
  intros Hr.
  destruct (get_dataset_inv _ _ _ _ _ Hr) as (number & train & tgts & _ & Hs & Hg & HL & _).
  cbn in Hs, HL.
  pose proof (train_test_split_perm _ _ _ _ _ Hs) as Hperm.
  destruct (bool_index_filter base_targets train tgts [0; 1; 2] Hg) as [Hsub Hin].
  rewrite <- HL in Hsub, Hin.
  assert (NoDup (split_unlabeled_indices r ++ train)) as Hnd
    by (rewrite Hperm; apply NoDup_seqZ).
  apply NoDup_app in Hnd as (HndU & Hsep & Hndt).
  split.
  - intros x Hx.
    assert (x ∈ split_unlabeled_indices r ++ train) as Hmem
      by (rewrite Hperm; apply elem_of_seqZ; lia).
    apply elem_of_app in Hmem as [HU|Ht]; [by right; left|].
    destruct (getitem_valid base_targets x Hx) as (t & Hgt & _).
    destruct (decide (t ∈ [0; 1; 2])) as [Hrem|Hkeep].
    + right. right. by exists t.
    + left. apply Hin. split; [done|]. by exists t.
  - intros Hnone.
    assert (split_labeled_indices r ≡ₚ train) as HLt.
    { apply NoDup_Permutation; [by eapply sublist_NoDup|done|].
      intros x. rewrite Hin. split; [by intros [? _]|]. intros Ht. split; [done|].
      assert (0 <= x < Z.of_nat (length base_targets)) as Hx.
      { assert (x ∈ seqZ 0 (Z.of_nat (length base_targets))) as Hmem
          by (rewrite <- Hperm; apply elem_of_app; by right).
        apply elem_of_seqZ in Hmem. lia. }
      destruct (getitem_valid base_targets x Hx) as (t & Hgt & Hlk).
      exists t. split; [done|].
      rewrite Forall_forall in Hnone. apply Hnone.
      by eapply list_elem_of_lookup_2. }
    by rewrite HLt, (comm (++)).
Qed.

Lemma get_dataset_coverage_witness :
  ∃ r, get_dataset Sample.rng (Cifar10Dataset 0.5 0.25) [3; 4; 5; 6; 9; 7; 3; 8] [9]
         = inr r ∧
    split_labeled_indices r ++ split_unlabeled_indices r ≡ₚ seqZ 0 8.
Proof.
  eexists. split; [reflexivity|].
  edestruct (get_dataset_coverage Sample.rng 0.5 0.25 [3; 4; 5; 6; 9; 7; 3; 8] [9])
    as [_ Hcover]; [reflexivity|].
  apply Hcover. repeat constructor; compute_done.
Defined.

(** X15. [get_dataset] never returns when the test share
    [1 - labeled_ratio] is not strictly between 0 and 1, a labeled ratio of
    0 or 1 included: it raises OverflowError at
    [int(len(base_dataset) * add_labeled_ratio)] when that product is
    infinite, and ValueError otherwise. *)
Theorem get_dataset_bad_ratio rng (self : DatasetClass) base_targets test_targets :
  PrimFloat.ltb 0 (PrimFloat.sub 1 (labeled_ratio self))
    && PrimFloat.ltb (PrimFloat.sub 1 (labeled_ratio self)) 1 = false →
  get_dataset rng self base_targets test_targets
  = inl match Prim2SF (PrimFloat.mul (Num.float_of_nat (length base_targets))
                                     (dataset_add_labeled_ratio self)) with
        | S754_infinity _ => OverflowError
        | _ => ValueError
        end.
Proof.
  intros Hbad. unfold get_dataset, budget, Num.int_of_float.
  destruct (Prim2SF _); try done.
  all: cbn; unfold train_test_split; by rewrite Hbad.
Qed.

Lemma get_dataset_bad_ratio_witness :
  get_dataset Sample.rng (Cifar10Dataset 1 0.25) [3; 4; 5; 6; 9; 7; 3; 8] [9]
  = inl ValueError ∧
  get_dataset Sample.rng (Cifar10Dataset 1 infinity) [3; 4; 5; 6; 9; 7; 3; 8] [9]
  = inl OverflowError.
Proof.
  split.
  - apply (get_dataset_bad_ratio Sample.rng (Cifar10Dataset 1 0.25)). reflexivity.
  - apply (get_dataset_bad_ratio Sample.rng (Cifar10Dataset 1 infinity)). reflexivity.
Defined.

(** ** [get_loss] *)

(** [nn.CrossEntropyLoss(weight=...)], by the tensor of its class weights. *)
Inductive Criterion (Tensor : Type) := CrossEntropyLoss (weight : option Tensor).
Arguments CrossEntropyLoss {_}.

(** [[np.sum(classes_targets == i) for i in range(num_classes)]]. *)
Definition classes_samples (classes_targets : list Z) (num_classes : Z) : list nat :=
  (λ i, length (filter (λ t, t = i) classes_targets)) <$> seqZ 0 num_classes.

Section get_loss.

(** The framework's: [np.log] on doubles, [torch.FloatTensor(array)], which
    copies the doubles into a tensor of single precision, and the two
    [.cuda()], of a tensor and of a module, which may raise.
    [args.weighted] and [len(unlabeled_dataset)] are given. *)
Context {Tensor : Type}.
Variable np_log : float → float.
Variable FloatTensor : list float → Tensor.
Variable tensor_cuda : Tensor → result Tensor.
Variable module_cuda : Criterion Tensor → result (Criterion Tensor).

(** [np.log(len(unlabeled_dataset)) - np.log(classes_samples)], in doubles. *)
Definition classes_weights (dataset_len : nat) (counts : list nat) : list float :=
  (λ c, PrimFloat.sub (np_log (Num.float_of_nat dataset_len))
                      (np_log (Num.float_of_nat c))) <$> counts.

Definition get_loss (weighted : bool) (unlabeled_dataset : Dataset)
    (dataset_len : nat) (unlabeled_indices : list Z) (dataset_class : DatasetClass)
  : result (Criterion Tensor) :=
  if weighted then
    classes_targets ←
      index_checked (getitems (targets unlabeled_dataset) unlabeled_indices);
    let counts := classes_samples classes_targets (num_classes dataset_class) in
    weight ← tensor_cuda (FloatTensor (classes_weights dataset_len counts));
    mret (CrossEntropyLoss (Some weight))
  else module_cuda (CrossEntropyLoss None).

End get_loss.

Definition sum_nat (l : list nat) : nat := foldr Nat.add 0%nat l.

Definition indicator (b : bool) : nat := if b then 1%nat else 0%nat.

Lemma count_one_class (t : Z) (k : nat) : ∀ a : nat,
  sum_nat ((λ i : nat, indicator (bool_decide (t = Z.of_nat i + 0))) <$> seq a k)
  = indicator (bool_decide (Z.of_nat a <= t < Z.of_nat a + Z.of_nat k)).
Proof.
  unfold indicator. induction k as [|k IH]; intros a.
  - cbn. by rewrite bool_decide_eq_false_2 by lia.
  - cbn [seq]. csimpl. rewrite IH. repeat case_bool_decide; lia.
Qed.

Lemma counts_cons (t : Z) (ts cls : list Z) :
  sum_nat ((λ i, length (filter (λ t0, t0 = i) (t :: ts))) <$> cls)
  = Nat.add (sum_nat ((λ i, indicator (bool_decide (t = i))) <$> cls))
            (sum_nat ((λ i, length (filter (λ t0, t0 = i) ts)) <$> cls)).
Proof.
  unfold indicator. induction cls as [|i cls IH]; [done|]. csimpl. rewrite IH.
  destruct (decide (t = i)) as [He|He].
  - rewrite filter_cons_True by done. rewrite bool_decide_eq_true_2 by done.
    cbn [length]. lia.
  - rewrite filter_cons_False by done. rewrite bool_decide_eq_false_2 by done. lia.
Qed.

Lemma classes_samples_sum (classes_targets : list Z) (num_classes : Z) :
  sum_nat (classes_samples classes_targets num_classes)
  = length (filter (λ t, 0 <= t < num_classes) classes_targets).
Proof.
  unfold classes_samples.
  induction classes_targets as [|t ts IH].
  - cbn. induction (seqZ 0 num_classes) as [|i l IHl]; [done|].
    csimpl. by rewrite IHl.
  - rewrite counts_cons, IH. unfold seqZ. rewrite <- list_fmap_compose.
    unfold compose. rewrite (count_one_class t (Z.to_nat num_classes) 0).
    unfold indicator. destruct (decide (0 <= t < num_classes)) as [Hin|Hout].
    + rewrite filter_cons_True by done. rewrite bool_decide_eq_true_2 by lia. done.
    + rewrite filter_cons_False by done. rewrite bool_decide_eq_false_2 by lia. done.
Qed.

Lemma getitems_valid {A} (a : list A) (ps : list Z) :
  valid_positions a ps →
  ∃ xs, getitems a ps = Some xs ∧ length xs = length ps ∧ Forall (λ x, x ∈ a) xs.
Proof.
  unfold getitems. induction 1 as [|p ps Hp _ (xs & IH & Hlen & Hin)].
  - by exists [].
  - destruct (getitem_valid a p Hp) as (x & Hx & Hlk).
    exists (x :: xs). split; [|split].
    + apply mapM_Some. constructor; [done|]. by apply mapM_Some.
    + cbn. by rewrite Hlen.
    + constructor; [by eapply list_elem_of_lookup_2|done].
Qed.

(** X16. The weighted loss: for valid unlabeled indices [get_loss] hands
    to [torch.FloatTensor] one weight per class,
    [log(len(dataset)) - log(count)] in doubles, where the counts are those
    of the unlabeled samples per class, and returns the cross entropy
    weighted by that tensor once moved to the device, or raises what
    [.cuda()] raises; when every target of the dataset lies in
    [range(num_classes)] the counts add up to the number of unlabeled
    indices. Unweighted, it is the cross entropy without weights, moved to
    the device. *)
Theorem get_loss_weights {Tensor : Type} (np_log : float → float)
    (FloatTensor : list float → Tensor) (tensor_cuda : Tensor → result Tensor)
    (module_cuda : Criterion Tensor → result (Criterion Tensor))
    (ud : Dataset) (dataset_len : nat) (U : list Z) (dc : DatasetClass) :
  valid_positions (targets ud) U →
  ∃ classes_targets,
    getitems (targets ud) U = Some classes_targets ∧
    get_loss np_log FloatTensor tensor_cuda module_cuda true ud dataset_len U dc =
      (weight ← tensor_cuda
         (FloatTensor
            ((λ c, PrimFloat.sub (np_log (Num.float_of_nat dataset_len))
                                 (np_log (Num.float_of_nat c)))
               <$> classes_samples classes_targets (num_classes dc)));
       mret (CrossEntropyLoss (Some weight))) ∧
    length (classes_samples classes_targets (num_classes dc))
      = Z.to_nat (num_classes dc) ∧
    (Forall (λ t, 0 <= t < num_classes dc) (targets ud) →
     sum_nat (classes_samples classes_targets (num_classes dc)) = length U) ∧
    get_loss np_log FloatTensor tensor_cuda module_cuda false ud dataset_len U dc
    = module_cuda (CrossEntropyLoss None).
Proof.
  intros Hv. destruct (getitems_valid (targets ud) U Hv) as (cts & Hg & Hlen & Hin).
  exists cts. split; [done|]. unfold get_loss. rewrite Hg. cbn.
  split; [done|]. split; [|split; [|done]].
  - unfold classes_samples. by rewrite length_fmap, length_seqZ.
  - intros Hrange. rewrite classes_samples_sum, <- Hlen. f_equal.
    clear Hg Hlen. induction Hin as [|t cts Ht _ IH]; [done|].
    rewrite filter_cons_True; [by rewrite IH|].
    rewrite Forall_forall in Hrange. by apply Hrange.
Qed.

Lemma get_loss_weights_witness :
  ∃ classes_targets,
    getitems [0; 2; 2; 1] [3; 1; 2] = Some classes_targets ∧
    classes_samples classes_targets 3 = [0; 1; 2]%nat ∧
    get_loss (λ x, x) (λ w : list float, w) (λ t, inr t) (λ c, inr c) true
      (Sample.dataset [0; 2; 2; 1] [3; 1; 2]) 4 [3; 1; 2] (Sample.dataset_class 1)
    = inr (CrossEntropyLoss (Some [4; 3; 2; 4; 4; 4; 4; 4; 4; 4]%float)).
Proof.
  destruct (get_loss_weights (λ x, x) (λ w : list float, w) (λ t, inr t)
              (λ c, inr c) (Sample.dataset [0; 2; 2; 1] [3; 1; 2]) 4
              [3; 1; 2] (Sample.dataset_class 1)) as (cts & Hg & Hloss & _).
  { repeat constructor; cbn; lia. }
  exists cts. split; [exact Hg|]. cbn in Hg. injection Hg as <-.
  split; [done|]. rewrite Hloss. reflexivity.
Defined.

(** ** [accuracy] *)

(** The length of [l[:k]] on [n] entries, before it is capped at [n]: a
    negative [k] counts from the end. *)
Definition slice_len (k : Z) (n : nat) : nat :=
  Z.to_nat (if bool_decide (k < 0) then Z.max 0 (Z.of_nat n + k) else k).

Definition slice_to {A} (k : Z) (l : list A) : list A :=
  take (slice_len k (length l)) l.

(** [target.view(1, -1).expand_as(pred)] along the batch dimension of [n]
    entries: [n] entries are kept, a single entry is repeated, anything
    else is refused. *)
Definition expand (target : list Z) (n : nat) : result (list Z) :=
  if bool_decide (length target = n) then mret target
  else match target with
       | [t] => mret (replicate n t)
       | _ => raise (FrameworkError "the expanded size of the tensor must match the existing size")
       end.

Definition column (j : nat) (m : list (list Z)) : list Z :=
  (λ row, nth j row 0) <$> m.

(** [m.t()] of a matrix of [cols] columns. *)
Definition transpose (cols : nat) (m : list (list Z)) : list (list Z) :=
  (λ j, column j m) <$> seq 0 cols.

(** [pred.eq(target)] with the target repeated on every row. *)
Definition eq_rows (pred : list (list Z)) (target : list Z) : list (list bool) :=
  (λ row, zip_with (λ p t, bool_decide (p = t)) row target) <$> pred.

(** The number of samples whose target is among the first [k] predictions
    of their row. *)
Definition correct_count (k : nat) (pred : list (list Z)) (target : list Z) : nat :=
  sum_nat (zip_with (λ row t, length (filter (λ c, c = t) (take k row))) pred target).

Section accuracy.

(** [output.topk(maxk, 1, True, True)]: for every row of scores the indices
    of its [maxk] largest entries, largest first; the framework's. *)
Variable topk_indices : list (list float) → Z → result (list (list Z)).

(** [.view(-1)]: the entries in row-major order, when the framework can
    view the slice in its memory layout. *)
Variable view_flat : list (list bool) → result (list bool).

(** Each entry of the result is [correct_k * (100.0 / batch_size)]; the
    product is the framework's, in single precision, and its two factors
    are kept apart here. *)
Definition accuracy (output : list (list float)) (target : list Z) (topk : list Z)
  : result (list (nat * float)) :=
  match topk with
  | [] => raise ValueError
  | k0 :: ks =>
      let maxk := foldr Z.max k0 ks in
      let batch_size := length target in
      pred ← topk_indices output maxk;
      let pred_t := transpose (Z.to_nat maxk) pred in
      expanded ← expand target (length pred);
      let correct := eq_rows pred_t expanded in
      mapM (λ k,
        flat ← view_flat (slice_to k correct);
        let correct_k := sum_nat (indicator <$> flat) in
        if bool_decide (batch_size = 0)%nat then raise ZeroDivisionError
        else mret (correct_k, PrimFloat.div 100 (Num.float_of_nat batch_size)))
        topk
  end.

End accuracy.

Lemma sum_nat_app (l1 l2 : list nat) :
  sum_nat (l1 ++ l2) = Nat.add (sum_nat l1) (sum_nat l2).
Proof. unfold sum_nat. induction l1 as [|x l1 IH]; cbn; [done|]. rewrite IH. lia. Qed.

Lemma hits_row (row : list Z) (t : Z) (m : nat) :
  (m <= length row)%nat →
  sum_nat ((λ j, indicator (bool_decide (nth j row 0 = t))) <$> seq 0 m)
  = length (filter (λ c, c = t) (take m row)).
Proof.
  induction m as [|m IH]; intros Hm; [done|].
  destruct (lookup_lt_is_Some_2 row m) as [x Hx]; [lia|].
  rewrite seq_S, fmap_app, sum_nat_app, IH by lia.
  rewrite (take_S_r _ _ _ Hx), filter_app, length_app. f_equal.
  rewrite (filter_cons _ x), filter_nil.
  cbn. rewrite nth_lookup, Hx. cbn. unfold indicator.
  case_bool_decide; destruct (decide (x = t)); done.
Qed.

Lemma count_heads (f : nat → bool) (g : nat → list bool) (js : list nat) :
  sum_nat (indicator <$> concat ((λ j, f j :: g j) <$> js))
  = Nat.add (sum_nat ((λ j, indicator (f j)) <$> js))
            (sum_nat (indicator <$> concat (g <$> js))).
Proof.
  induction js as [|j js IH]; [done|]. csimpl.
  rewrite !fmap_app, !sum_nat_app, IH. cbn. lia.
Qed.

Lemma count_empty_rows (js : list nat) :
  sum_nat (indicator <$> concat ((λ _, @nil bool) <$> js)) = 0%nat.
Proof. induction js; [done|]. by csimpl. Qed.

Lemma count_columns (m : nat) (pred : list (list Z)) : ∀ target : list Z,
  Forall (λ row, (m <= length row)%nat) pred →
  sum_nat (indicator <$> concat
    ((λ j, zip_with (λ p t, bool_decide (p = t)) (column j pred) target) <$> seq 0 m))
  = correct_count m pred target.
Proof.
  unfold correct_count, column.
  induction pred as [|row pred IH]; intros target Hrows.
  - apply count_empty_rows.
  - destruct target as [|t target]; [apply count_empty_rows|].
    apply Forall_cons in Hrows as [Hrow Hrows].
    pose proof (count_heads (λ j, bool_decide (nth j row 0 = t))
      (λ j, zip_with (λ p t, bool_decide (p = t)) ((λ row, nth j row 0) <$> pred) target)
      (seq 0 m)) as Hheads.
    etrans; [exact Hheads|]. rewrite IH by done.
    trans (Nat.add (length (filter (λ c, c = t) (take m row)))
      (sum_nat (zip_with (λ row t, length (filter (λ c, c = t) (take m row))) pred target)));
      [|reflexivity].
    f_equal. exact (hits_row row t m Hrow).
Qed.

Lemma filter_eq_NoDup (t : Z) (l : list Z) :
  NoDup l → (length (filter (λ c, c = t) l) <= 1)%nat.
Proof.
  induction 1 as [|x l Hx Hl IH]; [cbn; lia|].
  rewrite filter_cons. destruct (decide (x = t)) as [->|]; [|done].
  cbn. destruct (filter (λ c, c = t) l) as [|c cs] eqn:Hf; [cbn; lia|].
  assert (Hc : c ∈ filter (λ c, c = t) l) by (rewrite Hf; left).
  apply list_elem_of_filter in Hc as [-> Hc]. done.
Qed.

Lemma correct_count_le (k : nat) (pred : list (list Z)) : ∀ target : list Z,
  Forall (λ row, NoDup row) pred → (correct_count k pred target <= length target)%nat.
Proof.
  unfold correct_count.
  induction pred as [|row pred IH]; intros [|t target] Hrows; cbn; try lia.
  apply Forall_cons in Hrows as [Hrow Hrows]. specialize (IH target Hrows).
  assert (Hnd : NoDup (take k row)) by (eapply sublist_NoDup; [|apply sublist_take]; done).
  pose proof (filter_eq_NoDup t (take k row) Hnd) as Hle.
  unfold sum_nat in *. lia.
Qed.

Lemma correct_count_mono (k k' : nat) (pred : list (list Z)) : ∀ target : list Z,
  (k <= k')%nat → (correct_count k pred target <= correct_count k' pred target)%nat.
Proof.
  intros target Hk. unfold correct_count. revert target.
  induction pred as [|row pred IH]; intros [|t target]; cbn; try lia.
  specialize (IH target).
  assert (length (filter (λ c, c = t) (take k row))
          <= length (filter (λ c, c = t) (take k' row)))%nat; [|unfold sum_nat in *; lia].
  replace k' with (k + (k' - k))%nat by lia.
  rewrite <- take_take_drop, filter_app, length_app. lia.
Qed.

Lemma max_of_topk (k0 : Z) (ks : list Z) :
  foldr Z.max k0 ks ∈ k0 :: ks ∧ ∀ k, k ∈ k0 :: ks → k <= foldr Z.max k0 ks.
Proof.
  induction ks as [|k1 ks [IHin IHle]]; cbn.
  - split; [left|]. intros k ->%list_elem_of_singleton. lia.
  - split.
    + destruct (Z.max_spec k1 (foldr Z.max k0 ks)) as [[_ ->]|[_ ->]].
      * apply elem_of_cons in IHin as [->|Hin]; [left|do 2 right; done].
      * right; left.
    + intros k Hk. assert (k = k1 ∨ k ∈ k0 :: ks) as [->|Hk'].
      { rewrite !elem_of_cons in Hk. rewrite elem_of_cons. tauto. }
      * lia.
      * specialize (IHle k Hk'). lia.
Qed.

Lemma mapM_result {A B} (f : A → result B) (l : list A) : ∀ res : list B,
  mapM f l = inr res → Forall2 (λ x y, f x = inr y) l res.
Proof.
  induction l as [|x l IH]; intros res; cbn.
  - intros [= <-]. constructor.
  - destruct (f x) as [e|y] eqn:Hy; [discriminate|]. cbn.
    destruct (mapM f l) as [e|ys] eqn:Hys; [discriminate|]. cbn.
    intros [= <-]. constructor; [done|]. by apply IH.
Qed.

Lemma slice_count (cols : nat) (pred : list (list Z)) (target : list Z) (k : Z) :
  Forall (λ row, length row = cols) pred →
  (slice_len k cols <= cols)%nat →
  sum_nat (indicator <$> concat (slice_to k (eq_rows (transpose cols pred) target)))
  = correct_count (slice_len k cols) pred target.
Proof.
  intros Hrows Hk. unfold slice_to, eq_rows, transpose.
  rewrite !length_fmap, length_seq, <- list_fmap_compose, <- fmap_take, take_seq.
  rewrite Nat.min_l by done.
  apply (count_columns (slice_len k cols) pred target).
  eapply Forall_impl; [exact Hrows|]. cbn. intros row ->. done.
Qed.

Lemma slice_len_le (k maxk : Z) :
  k <= maxk → (slice_len k (Z.to_nat maxk) <= Z.to_nat maxk)%nat.
Proof. intros Hk. unfold slice_len. case_bool_decide; lia. Qed.

Section accuracy_facts.

Variable topk_indices : list (list float) → Z → result (list (list Z)).
Variable view_flat : list (list bool) → result (list bool).

(** What the code relies on from the framework: [topk] gives every row of
    the batch [maxk] distinct indices, and a view that succeeds holds the
    entries in row-major order. *)
Hypothesis topk_shape : ∀ output maxk pred,
  topk_indices output maxk = inr pred →
  length pred = length output ∧
  Forall (λ row, length row = Z.to_nat maxk ∧ NoDup row) pred.
Hypothesis view_flat_entries : ∀ m flat, view_flat m = inr flat → flat = concat m.

(** X17. When the target has one label per row of the output and
    [accuracy] returns, the entry for every [k] of [topk] is the number of
    samples whose label is among the first [k] predictions of their row,
    to be scaled by [100.0 / batch_size]; no count exceeds the batch size,
    and the count does not decrease when [k] grows. *)
Theorem accuracy_counts (output : list (list float)) (target : list Z) (topk : list Z)
    (res : list (nat * float)) :
  length target = length output →
  accuracy topk_indices view_flat output target topk = inr res →
  ∃ maxk pred,
    maxk ∈ topk ∧ (∀ k, k ∈ topk → k <= maxk) ∧
    topk_indices output maxk = inr pred ∧
    res = (λ k, (correct_count (slice_len k (Z.to_nat maxk)) pred target,
                 PrimFloat.div 100 (Num.float_of_nat (length target)))) <$> topk ∧
    Forall (λ r, (r.1 <= length target)%nat) res ∧
    (∀ i j k k' r r', topk !! i = Some k → topk !! j = Some k' → 0 <= k <= k' →
       res !! i = Some r → res !! j = Some r' → (r.1 <= r'.1)%nat).
Proof.
  intros Hlen Hacc. unfold accuracy in Hacc.
  destruct topk as [|k0 ks]; [discriminate|].
  destruct (max_of_topk k0 ks) as [Hin Hmax].
  set (maxk := foldr Z.max k0 ks) in *.
  destruct (topk_indices output maxk) as [e|pred] eqn:Htopk; [discriminate|].
  destruct (topk_shape _ _ _ Htopk) as [Hpred Hrows].
  cbn -[mapM Num.float_of_nat] in Hacc. unfold expand in Hacc.
  rewrite (bool_decide_eq_true_2 (length target = length pred)) in Hacc by congruence.
  cbn -[mapM Num.float_of_nat] in Hacc. apply mapM_result in Hacc.
  assert (Hres : res = (λ k, (correct_count (slice_len k (Z.to_nat maxk)) pred target,
                 PrimFloat.div 100 (Num.float_of_nat (length target)))) <$> (k0 :: ks)).
  { revert Hmax Hacc. generalize (k0 :: ks). intros l Hmax Hacc.
    induction Hacc as [|k r l res Hk _ IH]; [done|].
    csimpl. rewrite <- IH by (intros; apply Hmax; by right). f_equal.
    destruct (view_flat _) as [e|flat] eqn:Hview; [discriminate|]. cbn in Hk.
    apply view_flat_entries in Hview as ->.
    case_bool_decide; [discriminate|]. injection Hk as <-. f_equal.
    apply slice_count.
    - eapply Forall_impl; [exact Hrows|]. by intros row [? _].
    - apply slice_len_le, Hmax. left. }
  assert (Hnd : Forall (λ row, NoDup row) pred).
  { eapply Forall_impl; [exact Hrows|]. by intros row [_ ?]. }
  exists maxk, pred. split_and!; [done..| |].
  - rewrite Hres. apply Forall_fmap, Forall_forall. intros k _. cbn.
    by apply correct_count_le.
  - intros i j k k' r r' Hi Hj Hkk. rewrite Hres, !list_lookup_fmap, Hi, Hj.
    intros [= <-] [= <-]. cbn. apply correct_count_mono.
    unfold slice_len. rewrite !bool_decide_eq_false_2 by lia. lia.
Qed.

End accuracy_facts.

(** X18. On an empty batch [accuracy] never returns a result: with an
    empty [topk] it raises ValueError (whatever the batch), otherwise the
    framework's error when [topk] or the view fails or the output has rows,
    and ZeroDivisionError when the framework's steps all succeed. *)
Theorem accuracy_empty_batch (topk_indices : list (list float) → Z → result (list (list Z)))
    (view_flat : list (list bool) → result (list bool))
    (output : list (list float)) (topk : list Z) :
  (∀ target, accuracy topk_indices view_flat output target [] = inl ValueError) ∧
  ∃ e, accuracy topk_indices view_flat output [] topk = inl e ∧
    match topk with
    | [] => e = ValueError
    | k0 :: ks =>
        match topk_indices output (foldr Z.max k0 ks) with
        | inl e' => e = e'
        | inr [] => e = ZeroDivisionError ∨ ∃ m, view_flat m = inl e
        | inr (_ :: _) => ∃ msg, e = FrameworkError msg
        end
    end.
Proof.
  split; [done|]. unfold accuracy.
  destruct topk as [|k0 ks]; [by eexists|].
  destruct (topk_indices output (foldr Z.max k0 ks)) as [e|[|row pred]];
    unfold expand; cbn -[mapM].
  - by eexists.
  - rewrite (bool_decide_eq_true_2 (0%nat = 0%nat)) by done. cbn.
    match goal with
    | |- context [view_flat ?m ≫= _] =>
        destruct (view_flat m) as [e|flat] eqn:Hview; cbn
    end.
    + exists e. split; [done|]. right. by eexists.
    + eexists. split; [done|]. by left.
  - rewrite (bool_decide_eq_false_2 (0%nat = S (length pred))) by done.
    eexists. split; [done|]. by eexists.
Qed.

Module SampleAccuracy.

(** A top-k by insertion sort on the scores, largest first. *)
Fixpoint insert_desc (x : float * Z) (l : list (float * Z)) : list (float * Z) :=
  match l with
  | [] => [x]
  | y :: l' => if PrimFloat.ltb y.1 x.1 then x :: l else y :: insert_desc x l'
  end.

Definition sort_desc (l : list (float * Z)) : list (float * Z) :=
  foldr insert_desc [] l.

Definition row_topk (maxk : Z) (row : list float) : result (list Z) :=
  if bool_decide (0 <= maxk <= Z.of_nat (length row)) then
    mret (take (Z.to_nat maxk)
               ((sort_desc (zip row (seqZ 0 (Z.of_nat (length row))))).*2))
  else raise (FrameworkError "selected index k out of range").

Definition topk_indices (output : list (list float)) (maxk : Z)
  : result (list (list Z)) :=
  mapM (row_topk maxk) output.

Definition view_flat (m : list (list bool)) : result (list bool) :=
  mret (concat m).

Definition output : list (list float) :=
  [[0.125; 0.625; 0.25]; [0.75; 0.125; 0.125]; [0.125; 0.375; 0.5]]%float.

Definition target : list Z := [1; 0; 1].

Definition topk : list Z := [1; 2].

Definition res : list (nat * float) :=
  Eval vm_compute in
    match accuracy topk_indices view_flat output target topk with
    | inr r => r
    | inl _ => []
    end.

End SampleAccuracy.

Lemma insert_desc_perm (x : float * Z) (l : list (float * Z)) :
  SampleAccuracy.insert_desc x l ≡ₚ x :: l.
Proof.
  induction l as [|y l IH]; cbn; [done|].
  destruct (PrimFloat.ltb y.1 x.1); [done|]. rewrite IH. apply Permutation_swap.
Qed.

Lemma sort_desc_perm (l : list (float * Z)) : SampleAccuracy.sort_desc l ≡ₚ l.
Proof.
  induction l as [|x l IH]; cbn; [done|]. by rewrite insert_desc_perm, IH.
Qed.

Lemma sample_topk_shape (output : list (list float)) (maxk : Z) (pred : list (list Z)) :
  SampleAccuracy.topk_indices output maxk = inr pred →
  length pred = length output ∧
  Forall (λ row, length row = Z.to_nat maxk ∧ NoDup row) pred.
Proof.
  intros H%mapM_result. split; [symmetry; by eapply Forall2_length|].
  induction H as [|row r output pred Hr _ IH]; constructor; [|done].
  unfold SampleAccuracy.row_topk in Hr. case_bool_decide as Hk; [|discriminate].
  injection Hr as <-.
  assert (Hperm : (SampleAccuracy.sort_desc
            (zip row (seqZ 0 (Z.of_nat (length row))))).*2
          ≡ₚ seqZ 0 (Z.of_nat (length row))).
  { rewrite sort_desc_perm. rewrite snd_zip; [done|]. rewrite length_seqZ. lia. }
  split.
  - rewrite length_take, Hperm, length_seqZ. lia.
  - eapply sublist_NoDup; [|apply sublist_take]. rewrite Hperm. apply NoDup_seqZ.
Qed.

Lemma accuracy_counts_witness :
  ∃ maxk pred,
    maxk ∈ SampleAccuracy.topk ∧ (∀ k, k ∈ SampleAccuracy.topk → k <= maxk) ∧
    SampleAccuracy.topk_indices SampleAccuracy.output maxk = inr pred ∧
    SampleAccuracy.res
    = (λ k, (correct_count (slice_len k (Z.to_nat maxk)) pred SampleAccuracy.target,
             PrimFloat.div 100 (Num.float_of_nat (length SampleAccuracy.target))))
      <$> SampleAccuracy.topk ∧
    Forall (λ r, (r.1 <= length SampleAccuracy.target)%nat) SampleAccuracy.res ∧
    (∀ i j k k' r r', SampleAccuracy.topk !! i = Some k →
       SampleAccuracy.topk !! j = Some k' → 0 <= k <= k' →
       SampleAccuracy.res !! i = Some r → SampleAccuracy.res !! j = Some r' →
       (r.1 <= r'.1)%nat).
Proof.
  apply (accuracy_counts SampleAccuracy.topk_indices SampleAccuracy.view_flat
           sample_topk_shape (λ m flat H, eq_sym (f_equal (λ r, match r with
             inr x => x | inl _ => flat end) H))
           SampleAccuracy.output SampleAccuracy.target SampleAccuracy.topk
           SampleAccuracy.res).
  - reflexivity.
  - vm_compute. reflexivity.
Defined.

Example accuracy_sample :
  SampleAccuracy.res.*1 = [2%nat; 3%nat].
Proof. reflexivity. Qed.

(** ** [Metrics] *)

Module Metrics.

Record t := mk {
  targets : list Z;
  outputs : list Z;
  outputs_probs : option (list (list float));
}.

(** [__init__] *)
Definition init : t := mk [] [] None.

Section add_mini_batch.

(** [torch.argmax(m, dim=1).tolist()] and [torch.cat([a, b], dim=0)]: the
    framework's. *)
Variable argmax : list (list float) → result (list Z).
Variable cat : list (list float) → list (list float) → result (list (list float)).

(** The lists are extended in place: what a statement has written stays
    written when a later one raises, so the state after the call comes
    with the exception, if any. *)
Definition add_mini_batch (self : t) (mini_targets : list Z)
    (mini_outputs : list (list float)) : t * option exn :=
  let self := mk (targets self ++ mini_targets) (outputs self) (outputs_probs self) in
  match argmax mini_outputs with
  | inl e => (self, Some e)
  | inr labels =>
      let self := mk (targets self) (outputs self ++ labels) (outputs_probs self) in
      match outputs_probs self with
      | None => (mk (targets self) (outputs self) (Some mini_outputs), None)
      | Some probs =>
          match cat probs mini_outputs with
          | inl e => (self, Some e)
          | inr probs' => (mk (targets self) (outputs self) (Some probs'), None)
          end
      end
  end.

(** One call per mini batch, until one raises. *)
Fixpoint add_mini_batches (self : t) (batches : list (list Z * list (list float)))
  : t * option exn :=
  match batches with
  | [] => (self, None)
  | (mini_targets, mini_outputs) :: batches' =>
      match add_mini_batch self mini_targets mini_outputs with
      | (self', None) => add_mini_batches self' batches'
      | raised => raised
      end
  end.

End add_mini_batch.

End Metrics.

Section metrics_facts.

Variable argmax : list (list float) → result (list Z).
Variable cat : list (list float) → list (list float) → result (list (list float)).

(** What the code relies on from the framework: [argmax] gives one label
    per row, and a concatenation that succeeds holds the rows of both. *)
Hypothesis argmax_rows : ∀ m labels, argmax m = inr labels → length labels = length m.
Hypothesis cat_rows : ∀ a b c, cat a b = inr c → c = a ++ b.

Lemma add_mini_batches_from (batches : list (list Z * list (list float))) :
  ∀ self self' : Metrics.t,
  Forall (λ b, length b.1 = length b.2) batches →
  Metrics.add_mini_batches argmax cat self batches = (self', None) →
  Metrics.targets self' = Metrics.targets self ++ concat batches.*1 ∧
  length (Metrics.outputs self')
  = Nat.add (length (Metrics.outputs self)) (length (concat batches.*1)) ∧
  default [] (Metrics.outputs_probs self')
  = default [] (Metrics.outputs_probs self) ++ concat batches.*2 ∧
  (Metrics.outputs_probs self' = None ↔
   Metrics.outputs_probs self = None ∧ batches = []).
Proof.
  induction batches as [|[mt mo] batches IH]; intros self self' Hb Hrun.
  - injection Hrun as <-. rewrite !app_nil_r. cbn. split_and!; [done|lia|done|tauto].
  - apply Forall_cons in Hb as [Hlen Hb]. cbn in Hlen. cbn in Hrun.
    unfold Metrics.add_mini_batch in Hrun.
    destruct (argmax mo) as [e|labels] eqn:Hargmax; [discriminate|].
    apply argmax_rows in Hargmax. cbn in Hrun.
    destruct (Metrics.outputs_probs self) as [probs|] eqn:Hprobs.
    + destruct (cat probs mo) as [e|probs'] eqn:Hcat; [discriminate|].
      apply cat_rows in Hcat as ->.
      destruct (IH _ _ Hb Hrun) as (Ht & Ho & Hp & Hnone). cbn in *.
      rewrite Ht, Ho, Hp, !length_app, <- !app_assoc.
      split_and!; [done|lia|done|]. split; [|intros [? _]; done].
      intros HN. apply Hnone in HN as [? _]. done.
    + destruct (IH _ _ Hb Hrun) as (Ht & Ho & Hp & Hnone). cbn in *.
      rewrite Ht, Ho, Hp, !length_app, <- !app_assoc.
      split_and!; [done|lia|done|]. split; [|intros [_ ?]; done].
      intros HN. apply Hnone in HN as [? _]. done.
Qed.

(** X19. Starting from a fresh [Metrics], after any run of
    [add_mini_batch] calls that all return, on mini batches with one
    target per row of the outputs: [targets] is the concatenation of the
    mini targets, [outputs] has one label per target, [outputs_probs] holds
    the rows of all mini outputs in order, and it is still [None] exactly
    when no batch was added. *)
Theorem metrics_stay_aligned (batches : list (list Z * list (list float)))
    (self' : Metrics.t) :
  Forall (λ b, length b.1 = length b.2) batches →
  Metrics.add_mini_batches argmax cat Metrics.init batches = (self', None) →
  Metrics.targets self' = concat batches.*1 ∧
  length (Metrics.outputs self') = length (Metrics.targets self') ∧
  default [] (Metrics.outputs_probs self') = concat batches.*2 ∧
  (Metrics.outputs_probs self' = None ↔ batches = []).
Proof.
  intros Hb Hrun.
  destruct (add_mini_batches_from batches _ _ Hb Hrun) as (Ht & Ho & Hp & Hnone).
  cbn in *. rewrite Ht. split_and!; [done|done|done|]. rewrite Hnone. tauto.
Qed.

End metrics_facts.

(** X20. A call of [add_mini_batch] that raises is not undone: the mini
    targets have been appended and [outputs_probs] is unchanged. When it
    is [argmax] that raised on a batch with targets, [targets] and
    [outputs], aligned before the call, no longer are. *)
Theorem add_mini_batch_raises (argmax : list (list float) → result (list Z))
    (cat : list (list float) → list (list float) → result (list (list float)))
    (self self' : Metrics.t) (mini_targets : list Z)
    (mini_outputs : list (list float)) (e : exn) :
  Metrics.add_mini_batch argmax cat self mini_targets mini_outputs = (self', Some e) →
  Metrics.targets self' = Metrics.targets self ++ mini_targets ∧
  Metrics.outputs_probs self' = Metrics.outputs_probs self ∧
  (argmax mini_outputs = inl e ∨
   ∃ probs, Metrics.outputs_probs self = Some probs ∧ cat probs mini_outputs = inl e) ∧
  (argmax mini_outputs = inl e → mini_targets ≠ [] →
   length (Metrics.outputs self) = length (Metrics.targets self) →
   length (Metrics.outputs self') ≠ length (Metrics.targets self')).
Proof.
  unfold Metrics.add_mini_batch.
  destruct (argmax mini_outputs) as [e'|labels] eqn:Hargmax.
  - intros [= <- <-]. cbn. split_and!; [done|done|by left|].
    intros _ Hne Hlen. rewrite length_app, Hlen.
    destruct mini_targets; [done|]. cbn. lia.
  - cbn. destruct (Metrics.outputs_probs self) as [probs|] eqn:Hprobs; [|discriminate].
    destruct (cat probs mini_outputs) as [e'|probs'] eqn:Hcat; [|discriminate].
    intros [= <- <-]. cbn. split_and!; [done|done| |discriminate].
    right. by eexists.
Qed.

Module SampleMetrics.

Fixpoint row_argmax (best : float) (best_index next : Z) (row : list float) : Z :=
  match row with
  | [] => best_index
  | x :: row' =>
      if PrimFloat.ltb best x then row_argmax x next (next + 1) row'
      else row_argmax best best_index (next + 1) row'
  end.

Definition argmax (m : list (list float)) : result (list Z) :=
  mapM (λ row, match row with
               | [] => raise (FrameworkError "expected reduction dim 1 to have non-zero size")
               | x :: row' => mret (row_argmax x 0 1 row')
               end) m.

Definition cat (a b : list (list float)) : result (list (list float)) :=
  match a, b with
  | row_a :: _, row_b :: _ =>
      if bool_decide (length row_a = length row_b) then mret (a ++ b)
      else raise (FrameworkError "sizes of tensors must match except in dimension 0")
  | _, _ => mret (a ++ b)
  end.

Definition batches : list (list Z * list (list float)) :=
  [([1; 0], [[0.25; 0.75]; [0.5; 0.25]]%float); ([1], [[0.125; 0.5]]%float)].

Definition filled : Metrics.t :=
  Eval vm_compute in (Metrics.add_mini_batches argmax cat Metrics.init batches).1.

Definition wide : list (list float) := [[0.25; 0.5; 0.25]]%float.

Definition failed : Metrics.t :=
  Eval vm_compute in (Metrics.add_mini_batch argmax cat filled [2] wide).1.

End SampleMetrics.

Lemma sample_argmax_rows (m : list (list float)) (labels : list Z) :
  SampleMetrics.argmax m = inr labels → length labels = length m.
Proof. intros H%mapM_result. symmetry. by eapply Forall2_length. Qed.

Lemma sample_cat_rows (a b c : list (list float)) :
  SampleMetrics.cat a b = inr c → c = a ++ b.
Proof.
  unfold SampleMetrics.cat. destruct a as [|row_a a], b as [|row_b b];
    try case_bool_decide; by intros [= <-].
Qed.

Lemma metrics_stay_aligned_witness :
  Metrics.targets SampleMetrics.filled = concat SampleMetrics.batches.*1 ∧
  length (Metrics.outputs SampleMetrics.filled)
  = length (Metrics.targets SampleMetrics.filled) ∧
  default [] (Metrics.outputs_probs SampleMetrics.filled)
  = concat SampleMetrics.batches.*2 ∧
  (Metrics.outputs_probs SampleMetrics.filled = None ↔ SampleMetrics.batches = []).
Proof.
  apply (metrics_stay_aligned SampleMetrics.argmax SampleMetrics.cat
           sample_argmax_rows sample_cat_rows SampleMetrics.batches
           SampleMetrics.filled).
  - repeat constructor.
  - vm_compute. reflexivity.
Defined.

Lemma add_mini_batch_raises_witness :
  Metrics.targets SampleMetrics.failed = Metrics.targets SampleMetrics.filled ++ [2] ∧
  Metrics.outputs_probs SampleMetrics.failed
  = Metrics.outputs_probs SampleMetrics.filled.
Proof.
  destruct (add_mini_batch_raises SampleMetrics.argmax SampleMetrics.cat
              SampleMetrics.filled SampleMetrics.failed [2] SampleMetrics.wide
              (FrameworkError "sizes of tensors must match except in dimension 0"))
    as (Ht & Hp & _).
  - vm_compute. reflexivity.
  - split; [exact Ht|exact Hp].
Defined.
